(** * WebScraperService: a shallow embedding of the scraping service

    The service (WebScraperService.js) is a thin layer over two libraries:
    an HTML query library (cheerio) and the platform's URL class.  Neither
    is part of the repository, so both enter the development through the
    interface [Platform] below; everything the service itself does
    (truthiness tests, the [||] defaults, the per-field switch, the loops
    and their early exit when something throws) is written out.

    The spec speaks of a field's "mode" and "attrName"; in the code these
    are the properties [type] and [attr] of a field object. *)

From Stdlib Require Import String Ascii ZArith.
From stdpp Require Import base option list gmap strings.

Open Scope string_scope.

(** ** JavaScript strings and truthiness *)

Module JS.

(** [ToBoolean] of a string: only the empty string is falsy. *)
Definition truthy (s : string) : bool :=
  match s with
  | EmptyString => false
  | String _ _ => true
  end.

(** [ToBoolean] of a value that is a string or [undefined]. *)
Definition truthy_opt (o : option string) : bool :=
  match o with
  | Some s => truthy s
  | None => false
  end.

(** [a || b] where both sides are a string or [undefined]. *)
Definition or (a b : option string) : option string :=
  if truthy_opt a then a else b.

(** [a || ''], with a string literal on the right. *)
Definition or_str (a : option string) (d : string) : string :=
  match a with
  | Some s => if truthy s then s else d
  | None => d
  end.

(** [a || null]. *)
Definition or_null (a : option string) : option string :=
  match a with
  | Some s => if truthy s then Some s else None
  | None => None
  end.

(** [s.startsWith(p)]. *)
Definition startsWith (s p : string) : bool := String.prefix p s.

(** A string stands for a JavaScript string by the bytes of its UTF-8
    encoding.  [trim] removes the WhiteSpace and LineTerminator code
    points of ECMAScript from both ends.  In one byte: TAB, LF, VT, FF,
    CR and SP. *)
Definition is_white (c : ascii) : bool :=
  let n := nat_of_ascii c in
  ((9 <=? n)%nat && (n <=? 13)%nat) || (n =? 32)%nat.

(** In two bytes: U+00A0, encoded C2 A0. *)
Definition is_white2 (c1 c2 : ascii) : bool :=
  (nat_of_ascii c1 =? 194)%nat && (nat_of_ascii c2 =? 160)%nat.

(** In three bytes: U+1680 (E1 9A 80), U+2000 to U+200A (E2 80 80 to
    E2 80 8A), U+2028 and U+2029 (E2 80 A8, E2 80 A9), U+202F
    (E2 80 AF), U+205F (E2 81 9F), U+3000 (E3 80 80) and U+FEFF
    (EF BB BF). *)
Definition is_white3 (c1 c2 c3 : ascii) : bool :=
  let a := nat_of_ascii c1 in
  let b := nat_of_ascii c2 in
  let c := nat_of_ascii c3 in
  ((a =? 225) && (b =? 154) && (c =? 128))%nat
  || ((a =? 226) && (b =? 128)
      && (((128 <=? c) && (c <=? 138)) || (c =? 168) || (c =? 169) || (c =? 175)))%nat
  || ((a =? 226) && (b =? 129) && (c =? 159))%nat
  || ((a =? 227) && (b =? 128) && (c =? 128))%nat
  || ((a =? 239) && (b =? 187) && (c =? 191))%nat.

(** Drop the leading code points that [w1], [w2] or [w3] recognise by
    their one, two or three bytes. *)
Fixpoint strip (w1 : ascii → bool) (w2 : ascii → ascii → bool)
    (w3 : ascii → ascii → ascii → bool) (s : string) {struct s} : string :=
  match s with
  | EmptyString => EmptyString
  | String c1 s1 =>
      if w1 c1 then strip w1 w2 w3 s1
      else
        match s1 with
        | String c2 s2 =>
            if w2 c1 c2 then strip w1 w2 w3 s2
            else
              match s2 with
              | String c3 s3 => if w3 c1 c2 c3 then strip w1 w2 w3 s3 else s
              | EmptyString => s
              end
        | EmptyString => s
        end
  end.

Definition trimStart (s : string) : string :=
  strip is_white is_white2 is_white3 s.

(** From the end the bytes of a code point come last byte first. *)
Definition trimEnd (s : string) : string :=
  String.rev
    (strip is_white (λ c2 c1, is_white2 c1 c2) (λ c3 c2 c1, is_white3 c1 c2 c3)
       (String.rev s)).

(** [s.trim()]. *)
Definition trim (s : string) : string := trimEnd (trimStart s).

End JS.

(** ** Errors and the result of a call that may throw

    Every method body is wrapped in [try { ... } catch (error) {
    console.error(...); throw error; }]: whatever the libraries throw
    leaves the method unchanged.  Two things can throw: the query library
    on a selector it cannot parse, and [new URL] on an input it cannot
    resolve.  The service has no error of its own. *)

Inductive error : Type :=
  | SelectorError   (* thrown by [$(selector)] *)
  | UrlError.       (* thrown by [new URL(input, base)] *)

Inductive result (A : Type) : Type :=
  | Ok (a : A)
  | Throw (e : error).
Arguments Ok {A} a.
Arguments Throw {A} e.

#[global] Instance result_ret : MRet result := λ A a, Ok a.
#[global] Instance result_bind : MBind result := λ A B f m,
  match m with
  | Ok a => f a
  | Throw e => Throw e
  end.
#[global] Instance result_fmap : FMap result := λ A B f m,
  match m with
  | Ok a => Ok (f a)
  | Throw e => Throw e
  end.

(** A loop whose body may throw: [xs.each(body)] and [for (k in obj)]
    both run the body on each item in turn, threading the mutated
    accumulator, and stop at the first throw. *)
Fixpoint each {A B : Type} (body : A → B → result B) (xs : list A) (acc : B)
  : result B :=
  match xs with
  | [] => Ok acc
  | x :: xs' => acc' ← body x acc; each body xs' acc'
  end.

(** [for (const key in obj) if (hasOwnProperty(obj, key)) body]: the own
    enumerable properties of a plain object.  The entries are visited in
    the order of [map_to_list]; JavaScript visits them in property order.
    [for_in_perm] below shows that the order is unobservable for the
    bodies used here. *)
Definition for_in {A B : Type} (obj : gmap string A)
    (body : string → A → B → result B) (init : B) : result B :=
  each (λ kv, body kv.1 kv.2) (map_to_list obj) init.

(** ** The query library as the service sees it *)

Module Cheerio.

(** A matched element, through the three accessors the service calls
    on it: [.attr(name)], [.text()] and [.html()].  The tag name is not
    read by the service; the library's [attr] looks at it. *)
Record element : Type := Element {
  tagName : string;
  attribs : gmap string string;
  textContent : string;
  innerHTML : string
}.

(** What a field of the structured result can hold. *)
Inductive value : Type :=
  | VUndefined
  | VNull
  | VString (s : string)
  | VArray (items : list string)
  | VObject (props : gmap string string).

(** [$(element).attr(name)] for the literal names the service passes
    ([src], [data-src], [alt], [width], [height], [href]): the
    attribute, or [undefined].  None of them is a boolean name or
    [value], for which the library does more; see [attr_named]. *)
Definition getAttr (e : element) (name : string) : option string :=
  attribs e !! name.

(** The attribute names the library's [attr] treats as booleans, which
    it matches without regard to case. *)
Definition boolean_names : list string :=
  [ "autofocus"; "autoplay"; "async"; "checked"; "controls"; "defer";
    "disabled"; "hidden"; "loop"; "multiple"; "open"; "readonly";
    "required"; "scoped"; "selected" ].

Definition lower (c : ascii) : ascii :=
  let n := nat_of_ascii c in
  if (65 <=? n)%nat && (n <=? 90)%nat then ascii_of_nat (n + 32) else c.

Fixpoint lowercase (s : string) : string :=
  match s with
  | EmptyString => EmptyString
  | String c s' => String (lower c) (lowercase s')
  end.

Definition is_boolean (name : string) : bool :=
  bool_decide (lowercase name ∈ boolean_names).

(** The library's [attr] on one element, for a name given by the
    caller: an attribute that is present reads as its value, or as the
    name itself when the name is a boolean one; one that is missing
    reads as [undefined], except [value], which defaults to the text of
    an [option] and to [on] for a radio button or a checkbox. *)
Definition attr_named (e : element) (name : string) : option string :=
  match attribs e !! name with
  | Some v => Some (if is_boolean name then name else v)
  | None =>
      if String.eqb name "value" then
        if String.eqb (tagName e) "option" then Some (textContent e)
        else if String.eqb (tagName e) "input"
                && bool_decide (attribs e !! "type" = Some "radio"
                                ∨ attribs e !! "type" = Some "checkbox")
        then Some "on"
        else None
      else None
  end.

(** [selection.text()]: the text of every element of the selection,
    concatenated. *)
Definition text (sel : list element) : string :=
  foldr (λ e acc, textContent e +:+ acc) "" sel.

(** [selection.html()]: inner markup of the first element, [null] on an
    empty selection. *)
Definition html (sel : list element) : value :=
  match sel with
  | [] => VNull
  | e :: _ => VString (innerHTML e)
  end.

(** [selection.attr(name)] where [name] may be [undefined]: on an empty
    selection [undefined]; with a falsy name the attribute table of the
    first element; otherwise what [attr_named] reads on that element. *)
Definition attr (sel : list element) (name : option string) : value :=
  match sel with
  | [] => VUndefined
  | e :: _ =>
      if JS.truthy_opt name then
        match attr_named e (default "" name) with
        | Some v => VString v
        | None => VUndefined
        end
      else VObject (attribs e)
  end.

End Cheerio.
Export Cheerio.

(** The two library entry points that are functions of strings alone. *)
Class Platform : Type := {
  (** [cheerio.load(html)(selector)]: the matched elements in document
      order, or [None] when the selector is rejected. *)
  select : string → string → option (list element);
  (** [new URL(input, base).href], or [None] when the constructor throws. *)
  resolve : string → string → option string;
  (** An [href] starts with the URL's scheme: it is never empty. *)
  resolve_nonempty : ∀ input base, resolve input base ≠ Some ""
}.

(** ** Records returned by the service *)

Module Image.
Record t : Type := Make {
  url : string;
  alt : string;
  width : option string;     (* [None] is [null] *)
  height : option string
}.
End Image.

Module Link.
Record t : Type := Make {
  url : string;
  text : string
}.
End Link.

(** A field of the mapping passed to [extractStructuredData]: a bare
    selector string, or an object whose properties [selector], [type] and
    [attr] may each be missing.  Other properties of the object are never
    read. *)
Module Field.
Record object : Type := Make {
  selector : option string;
  type : option string;
  attr : option string
}.

Inductive spec : Type :=
  | Bare (s : string)       (* [typeof selector === 'string'] *)
  | Obj (o : object).       (* [typeof selector === 'object'] *)
End Field.

(** The two shapes of selectors [extractText] handles, a string and an
    object of strings, and what it returns for each. *)
Inductive selectors : Type :=
  | OneSelector (s : string)
  | ManySelectors (m : gmap string string).

Inductive texts : Type :=
  | OneText (s : string)
  | ManyTexts (m : gmap string string).

(** ** The extractor methods *)

Section Service.
Context {P : Platform}.

(** [$(selector)] on the loaded document. *)
Definition query (html selector : string) : result (list element) :=
  match select html selector with
  | Some els => Ok els
  | None => Throw SelectorError
  end.

(** [$(x)] where [x] may be [undefined]: an empty selection then. *)
Definition query_opt (html : string) (selector : option string)
  : result (list element) :=
  match selector with
  | Some s => query html s
  | None => Ok []
  end.

(** [new URL(input, base).href]. *)
Definition new_URL_href (input base : string) : result string :=
  match resolve input base with
  | Some h => Ok h
  | None => Throw UrlError
  end.

(** [if (u && u.startsWith('/') && baseUrl) u = new URL(u, baseUrl).href],
    the statement both [extractImages] and [extractLinks] run on the
    attribute they read; the result is the new value of [u]. *)
Definition handle_relative (u : option string) (baseUrl : string)
  : result (option string) :=
  match u with
  | Some s =>
      if JS.truthy s && JS.startsWith s "/" && JS.truthy baseUrl
      then Some <$> new_URL_href s baseUrl
      else Ok u
  | None => Ok u
  end.

Definition extractText (html : string) (sels : selectors) : result texts :=
  match sels with
  | OneSelector s =>
      els ← query html s;
      Ok (OneText (JS.trim (Cheerio.text els)))
  | ManySelectors m =>
      ManyTexts <$>
        for_in m (λ key s res,
          els ← query html s;
          Ok (<[key := JS.trim (Cheerio.text els)]> res)) ∅
  end.

(** The callback of [$(selector).each] in [extractImages]. *)
Definition image_step (baseUrl : string) (e : element) (images : list Image.t)
  : result (list Image.t) :=
  let imageUrl := JS.or (getAttr e "src") (getAttr e "data-src") in
  imageUrl ← handle_relative imageUrl baseUrl;
  match imageUrl with
  | Some u =>
      if JS.truthy u then
        Ok (images ++ [ {| Image.url := u;
                          Image.alt := JS.or_str (getAttr e "alt") "";
                          Image.width := JS.or_null (getAttr e "width");
                          Image.height := JS.or_null (getAttr e "height") |} ])%list
      else Ok images
  | None => Ok images
  end.

(** [extractImages(html, selector = 'img', baseUrl = '')]. *)
Definition extractImages (html selector baseUrl : string)
  : result (list Image.t) :=
  els ← query html selector;
  each (image_step baseUrl) els [].

(** The callback of [$(selector).each] in [extractLinks]. *)
Definition link_step (baseUrl : string) (e : element) (links : list Link.t)
  : result (list Link.t) :=
  let href := getAttr e "href" in
  href ← handle_relative href baseUrl;
  match href with
  | Some u =>
      if JS.truthy u then
        Ok (links ++ [ {| Link.url := u;
                         Link.text := JS.trim (Cheerio.text [e]) |} ])%list
      else Ok links
  | None => Ok links
  end.

(** [extractLinks(html, selector = 'a', baseUrl = '')]. *)
Definition extractLinks (html selector baseUrl : string)
  : result (list Link.t) :=
  els ← query html selector;
  each (link_step baseUrl) els [].

(** [result[key] = v] where computing [v] may throw. *)
Definition assign (key : string) (v : result value) (res : gmap string value)
  : result (gmap string value) :=
  x ← v; Ok (<[key := x]> res).

(** The [switch (selector.type)] of [extractStructuredData]. *)
Definition switch_type (html : string) (o : Field.object) (t : string)
  : result value :=
  if String.eqb t "text" then
    els ← query_opt html (Field.selector o);
    Ok (VString (JS.trim (Cheerio.text els)))
  else if String.eqb t "html" then
    els ← query_opt html (Field.selector o);
    Ok (Cheerio.html els)
  else if String.eqb t "attr" then
    els ← query_opt html (Field.selector o);
    Ok (Cheerio.attr els (Field.attr o))
  else if String.eqb t "list" then
    els ← query_opt html (Field.selector o);
    items ← each (λ el items, Ok (items ++ [JS.trim (Cheerio.text [el])])%list) els [];
    Ok (VArray items)
  else
    els ← query_opt html (Field.selector o);
    Ok (VString (JS.trim (Cheerio.text els))).

(** The body of the [for (const key in mapping)] loop. *)
Definition field_step (html key : string) (f : Field.spec)
    (res : gmap string value) : result (gmap string value) :=
  match f with
  | Field.Bare s =>
      assign key (els ← query html s;
                  Ok (VString (JS.trim (Cheerio.text els)))) res
  | Field.Obj o =>
      match Field.type o with
      | Some t =>
          if JS.truthy t then assign key (switch_type html o t) res
          else Ok res
      | None => Ok res
      end
  end.

Definition extractStructuredData (html : string) (mapping : gmap string Field.spec)
  : result (gmap string value) :=
  for_in mapping (field_step html) ∅.

End Service.

(** ** The HTTP client configuration held by a service instance *)

Record credentials : Type := Credentials {
  username : string;
  password : string
}.

(** The [options] argument of the constructor; each property may be
    missing. *)
Record options : Type := Options {
  opt_headers : option (gmap string string);
  opt_auth : option credentials;
  opt_timeout : option Z
}.

(** [this.client.defaults]. *)
Record client : Type := Client {
  timeout : Z;
  headers : gmap string string;
  auth : option credentials
}.

Definition default_user_agent : string :=
  "Mozilla/5.0 (iPhone; CPU iPhone OS 14_0 like Mac OS X) AppleWebKit/605.1.15 (KHTML, like Gecko) Mobile/15E148".

(** [new WebScraperService(options)].  The spread [{ 'User-Agent': ..,
    ...options.headers }] lets the caller's headers win, which is the
    left-biased union. *)
Definition new_WebScraperService (o : options) : client :=
  {| timeout := match opt_timeout o with
                | Some t => if decide (t = 0%Z) then 10000%Z else t
                | None => 10000%Z
                end;
     headers := default ∅ (opt_headers o) ∪ {[ "User-Agent" := default_user_agent ]};
     auth := opt_auth o |}.

(** [defaults.auth = auth]: whatever is passed is stored, so [null] or
    [undefined], here [None], takes stored credentials away. *)
Definition setAuth (a : option credentials) (c : client) : client :=
  {| timeout := timeout c; headers := headers c; auth := a |}.

(** [defaults.headers = { ...defaults.headers, ...headers }]. *)
Definition setHeaders (h : gmap string string) (c : client) : client :=
  {| timeout := timeout c; headers := h ∪ headers c; auth := auth c |}.

Definition setCookies (cookies : string) (c : client) : client :=
  setHeaders {[ "Cookie" := cookies ]} c.

(** ** What the spec says the extractors return, in its own words

    Of a matched image the spec says: the URL is [src], or [data-src]
    when [src] is absent; an element with neither is skipped; a URL
    starting with a slash is resolved against the base URL; [alt]
    defaults to the empty string; [width] and [height] are [null] when
    absent.  [collect] is "one record per matched element, in document
    order", leaving out what is skipped. *)

Fixpoint collect {A R : Type} (f : A → result (option R)) (xs : list A)
  : result (list R) :=
  match xs with
  | [] => Ok []
  | x :: xs' =>
      r ← f x;
      rs ← collect f xs';
      Ok (option_list r ++ rs)%list
  end.

Section Described.
Context {P : Platform}.

Definition described_url (u baseUrl : string) : result string :=
  if JS.startsWith u "/" then new_URL_href u baseUrl else Ok u.

Definition described_image (baseUrl : string) (e : element)
  : result (option Image.t) :=
  let source :=
    match getAttr e "src" with
    | Some s => Some s
    | None => getAttr e "data-src"
    end in
  match source with
  | None => Ok None
  | Some u =>
      url ← described_url u baseUrl;
      Ok (Some {| Image.url := url;
                  Image.alt := default "" (getAttr e "alt");
                  Image.width := getAttr e "width";
                  Image.height := getAttr e "height" |})
  end.

Definition described_link (baseUrl : string) (e : element)
  : result (option Link.t) :=
  match getAttr e "href" with
  | None => Ok None
  | Some u =>
      url ← described_url u baseUrl;
      Ok (Some {| Link.url := url;
                  Link.text := JS.trim (Cheerio.text [e]) |})
  end.

End Described.

(** No attribute among [names] is present with an empty value. *)
Definition nonempty_attrs (names : list string) (e : element) : Prop :=
  ∀ n, n ∈ names → getAttr e n ≠ Some "".

(** With an empty base URL nothing is resolved: the record carries the
    attribute as it was read. *)
Definition unresolved_image (e : element) : option Image.t :=
  match JS.or (getAttr e "src") (getAttr e "data-src") with
  | Some u =>
      if JS.truthy u then
        Some {| Image.url := u;
                Image.alt := JS.or_str (getAttr e "alt") "";
                Image.width := JS.or_null (getAttr e "width");
                Image.height := JS.or_null (getAttr e "height") |}
      else None
  | None => None
  end.

Definition unresolved_link (e : element) : option Link.t :=
  match getAttr e "href" with
  | Some u =>
      if JS.truthy u then
        Some {| Link.url := u; Link.text := JS.trim (Cheerio.text [e]) |}
      else None
  | None => None
  end.

(** The value a field contributes to the structured result: [Ok None]
    when the loop body assigns nothing for it. *)
Definition field_value {P : Platform} (html : string) (f : Field.spec)
  : result (option value) :=
  match f with
  | Field.Bare s =>
      els ← query html s;
      Ok (Some (VString (JS.trim (Cheerio.text els))))
  | Field.Obj o =>
      match Field.type o with
      | Some t => if JS.truthy t then Some <$> switch_type html o t else Ok None
      | None => Ok None
      end
  end.

(** The part of a loop-body outcome that ends up in the result. *)
Definition assigned {A V : Type} (f : A → result (option V)) (a : A) : option V :=
  match f a with
  | Ok ov => ov
  | Throw _ => None
  end.

(** A field for which the loop body runs an assignment: a bare string,
    or an object with a truthy [type]. *)
Definition assigns (f : Field.spec) : bool :=
  match f with
  | Field.Bare _ => true
  | Field.Obj o => JS.truthy_opt (Field.type o)
  end.

(** The selector a field queries with, [None] for [$(undefined)]. *)
Definition field_selector (f : Field.spec) : option string :=
  match f with
  | Field.Bare s => Some s
  | Field.Obj o => Field.selector o
  end.

(** The [type] tags with a [case] of their own in the switch. *)
Definition known_type (t : string) : bool :=
  String.eqb t "text" || String.eqb t "html" || String.eqb t "attr"
  || String.eqb t "list".

(** What the switch assigns once the selection [els] is known. *)
Definition type_value (o : Field.object) (t : string) (els : list element)
  : value :=
  if String.eqb t "text" then VString (JS.trim (Cheerio.text els))
  else if String.eqb t "html" then Cheerio.html els
  else if String.eqb t "attr" then Cheerio.attr els (Field.attr o)
  else if String.eqb t "list"
    then VArray ((λ el, JS.trim (Cheerio.text [el])) <$> els)
  else VString (JS.trim (Cheerio.text els)).

(** The value of a field whose selector matches no element. *)
Definition no_match_value (f : Field.spec) : value :=
  match f with
  | Field.Bare _ => VString ""
  | Field.Obj o =>
      let t := default "" (Field.type o) in
      if String.eqb t "html" then VNull
      else if String.eqb t "attr" then VUndefined
      else if String.eqb t "list" then VArray []
      else VString ""
  end.


(** The element with every empty attribute taken away. *)
Definition drop_empty (e : element) : element :=
  {| tagName := tagName e; attribs := filter (λ kv, kv.2 ≠ "") (attribs e);
     textContent := textContent e; innerHTML := innerHTML e |}.


(** ** Sample documents

    A table of what the query library returns on the documents of the
    spec's examples, and a resolver for root-relative references against
    a base of the shape [scheme://authority/...].  They stand for the
    libraries on these rows only. *)

Module Sample.

Definition dq : string := String "034"%char EmptyString.

(** [<img src="/a.png" alt="x">] *)
Definition doc_img : string :=
  "<img src=" +:+ dq +:+ "/a.png" +:+ dq +:+ " alt=" +:+ dq +:+ "x" +:+ dq +:+ ">".

(** [<a href="/p">Hi</a>] *)
Definition doc_link : string :=
  "<a href=" +:+ dq +:+ "/p" +:+ dq +:+ ">Hi</a>".

(** [<h1>T</h1><span class="tag">a</span><span class="tag">b</span>] *)
Definition doc_page : string :=
  "<h1>T</h1><span class=" +:+ dq +:+ "tag" +:+ dq +:+ ">a</span><span class="
  +:+ dq +:+ "tag" +:+ dq +:+ ">b</span>".

(** [<img src="" data-src="/lazy.png"><img alt="none">] *)
Definition doc_lazy : string :=
  "<img src=" +:+ dq +:+ dq +:+ " data-src=" +:+ dq +:+ "/lazy.png" +:+ dq
  +:+ "><img alt=" +:+ dq +:+ "none" +:+ dq +:+ ">".

Definition img_a : element :=
  {| tagName := "img"; attribs := {[ "src" := "/a.png"; "alt" := "x" ]};
     textContent := ""; innerHTML := "" |}.

Definition a_p : element :=
  {| tagName := "a"; attribs := {[ "href" := "/p" ]};
     textContent := "Hi"; innerHTML := "Hi" |}.

Definition h1_T : element :=
  {| tagName := "h1"; attribs := ∅; textContent := "T"; innerHTML := "T" |}.

Definition span_tag (s : string) : element :=
  {| tagName := "span"; attribs := {[ "class" := "tag" ]};
     textContent := s; innerHTML := s |}.

Definition img_lazy : element :=
  {| tagName := "img"; attribs := {[ "src" := ""; "data-src" := "/lazy.png" ]};
     textContent := ""; innerHTML := "" |}.

Definition img_none : element :=
  {| tagName := "img"; attribs := {[ "alt" := "none" ]};
     textContent := ""; innerHTML := "" |}.

Definition sample_select (html selector : string) : option (list element) :=
  if String.eqb selector "[" then None
  else if String.eqb html doc_img && String.eqb selector "img" then Some [img_a]
  else if String.eqb html doc_link && String.eqb selector "a" then Some [a_p]
  else if String.eqb html doc_page && String.eqb selector "h1" then Some [h1_T]
  else if String.eqb html doc_page && String.eqb selector ".tag"
    then Some [span_tag "a"; span_tag "b"]
  else if String.eqb html doc_lazy && String.eqb selector "img"
    then Some [img_lazy; img_none]
  else Some [].

(** [scheme://authority] of a base URL, when it has that shape. *)
Definition origin (base : string) : option string :=
  match String.index 0 "://" base with
  | Some i =>
      if (i =? 0)%nat then None
      else
        let rest := String.substring (i + 3) (String.length base) base in
        let host :=
          match String.index 0 "/" rest with
          | Some j => String.substring 0 j rest
          | None => rest
          end in
        if JS.truthy host then Some (String.substring 0 (i + 3) base +:+ host)
        else None
  | None => None
  end.

Definition sample_resolve (input base : string) : option string :=
  o ← origin base; Some (o +:+ input).

Lemma append_empty_inv (s1 s2 : string) : s1 +:+ s2 = "" → s1 = "" ∧ s2 = "".
Proof. destruct s1; simpl; [done | discriminate]. Qed.

Lemma sample_resolve_nonempty input base : sample_resolve input base ≠ Some "".
Proof.
  unfold sample_resolve, origin.
  destruct (String.index 0 "://" base) as [i|]; simpl; [|discriminate].
  destruct (i =? 0)%nat; simpl; [discriminate|].
  match goal with |- context [JS.truthy ?h] => destruct h as [|c h'] eqn:Hh end;
    simpl; [discriminate|].
  intros [= Happ].
  apply append_empty_inv in Happ as [Happ _].
  apply append_empty_inv in Happ as [_ Happ]. discriminate.
Qed.

Definition platform : Platform :=
  {| select := sample_select; resolve := sample_resolve;
     resolve_nonempty := sample_resolve_nonempty |}.

(** [new WebScraperService({ headers: { 'Accept-Language': 'en' },
    auth: { username: 'u', password: 'p' }, timeout: 5000 })] *)
Definition scraper : client :=
  new_WebScraperService
    {| opt_headers := Some {[ "Accept-Language" := "en" ]};
       opt_auth := Some {| username := "u"; password := "p" |};
       opt_timeout := Some 5000%Z |}.

(** [{ title: { selector: 'h1' }, body: { selector: 'p', type: 'html' } }] *)
Definition untyped_and_html : gmap string Field.spec :=
  {[ "title" := Field.Obj {| Field.selector := Some "h1"; Field.type := None;
                             Field.attr := None |};
     "body" := Field.Obj {| Field.selector := Some "p"; Field.type := Some "html";
                            Field.attr := None |} ]}.

(** [{ title: { selector: 'h1' } }] *)
Definition untyped_title : gmap string Field.spec :=
  {[ "title" := Field.Obj {| Field.selector := Some "h1"; Field.type := None;
                             Field.attr := None |} ]}.

(** [{ title: { selector: 'h1', type: 'custom' } }] *)
Definition custom_title : gmap string Field.spec :=
  {[ "title" := Field.Obj {| Field.selector := Some "h1"; Field.type := Some "custom";
                             Field.attr := None |} ]}.

(** [{ link: { selector: 'a', type: 'attr' } }] *)
Definition attr_without_name : gmap string Field.spec :=
  {[ "link" := Field.Obj {| Field.selector := Some "a"; Field.type := Some "attr";
                            Field.attr := None |} ]}.

(** [{ title: 'h1', tags: { selector: '.tag', type: 'list' } }] *)
Definition title_and_tags : gmap string Field.spec :=
  {[ "title" := Field.Bare "h1";
     "tags" := Field.Obj {| Field.selector := Some ".tag"; Field.type := Some "list";
                            Field.attr := None |} ]}.

End Sample.

(** ** More sample documents

    A second table, for documents whose URLs are absolute. *)

Module Demo.

(** [<img src="https://cdn.example/x.png" width="10">
     <a href="https://h.example/q"> Q </a><a name="top">Top</a>] *)
Definition doc_abs : string :=
  "<img src=" +:+ Sample.dq +:+ "https://cdn.example/x.png" +:+ Sample.dq
  +:+ " width=" +:+ Sample.dq +:+ "10" +:+ Sample.dq +:+ "><a href=" +:+ Sample.dq
  +:+ "https://h.example/q" +:+ Sample.dq +:+ "> Q </a><a name=" +:+ Sample.dq
  +:+ "top" +:+ Sample.dq +:+ ">Top</a>".

Definition img_abs : element :=
  {| tagName := "img";
     attribs := {[ "src" := "https://cdn.example/x.png"; "width" := "10" ]};
     textContent := ""; innerHTML := "" |}.

Definition a_q : element :=
  {| tagName := "a"; attribs := {[ "href" := "https://h.example/q" ]};
     textContent := " Q "; innerHTML := " Q " |}.

Definition a_top : element :=
  {| tagName := "a"; attribs := {[ "name" := "top" ]};
     textContent := "Top"; innerHTML := "Top" |}.

Definition demo_select (html selector : string) : option (list element) :=
  if String.eqb selector "[" then None
  else if String.eqb html doc_abs && String.eqb selector "img" then Some [img_abs]
  else if String.eqb html doc_abs && String.eqb selector "a" then Some [a_q; a_top]
  else Sample.sample_select html selector.

Definition platform : Platform :=
  {| select := demo_select; resolve := Sample.sample_resolve;
     resolve_nonempty := Sample.sample_resolve_nonempty |}.

(** [{ title: 'h1', missing: 'p' }] *)
Definition two_selectors : gmap string string :=
  {[ "title" := "h1"; "missing" := "p" ]}.

(** [{ title: 'h1', broken: '[' }] *)
Definition broken_selectors : gmap string string :=
  {[ "title" := "h1"; "broken" := "[" ]}.

End Demo.

(** ** What a record shows of the element it was made from *)

(** The attribute [extractImages] takes the URL from. *)
Definition image_source (e : element) : option string :=
  JS.or (getAttr e "src") (getAttr e "data-src").

Definition image_attrs (e : element) : string * option string * option string :=
  (JS.or_str (getAttr e "alt") "", JS.or_null (getAttr e "width"),
   JS.or_null (getAttr e "height")).

Definition record_attrs (r : Image.t) : string * option string * option string :=
  (Image.alt r, Image.width r, Image.height r).

Definition link_text (e : element) : string := JS.trim (Cheerio.text [e]).

(** What one selector of the object given to [extractText] contributes. *)
Definition text_field {P : Platform} (html s : string) : result (option string) :=
  els ← query html s; Ok (Some (JS.trim (Cheerio.text els))).

(** A field whose value is markup or an attribute, passed on as the
    query library gives it: [type] is [html] or [attr]. *)
Definition keeps_raw (f : Field.spec) : bool :=
  match f with
  | Field.Bare _ => false
  | Field.Obj o =>
      let t := default "" (Field.type o) in
      String.eqb t "html" || String.eqb t "attr"
  end.

(** A value made of trimmed text only. *)
Definition trimmed_value (v : value) : Prop :=
  match v with
  | VString s => JS.trim s = s
  | VArray items => Forall (λ s, JS.trim s = s) items
  | _ => False
  end.

(** [{ only: { selector: 'h1', type: 'list' } }] and the same with
    [type: 'text'], [type: 'html'], and [type: 'attr', attr: 'href']. *)
Definition one_field (selector type : string) (attr : option string)
  : gmap string Field.spec :=
  {[ "only" := Field.Obj {| Field.selector := Some selector;
                            Field.type := Some type; Field.attr := attr |} ]}.

(** ** Sequences of calls on a service instance *)

Inductive call : Type :=
  | CallSetAuth (a : option credentials)
  | CallSetHeaders (h : gmap string string)
  | CallSetCookies (cookies : string).

Definition apply_call (c : client) (k : call) : client :=
  match k with
  | CallSetAuth a => setAuth a c
  | CallSetHeaders h => setHeaders h c
  | CallSetCookies cookies => setCookies cookies c
  end.

Definition apply_calls (c : client) (calls : list call) : client :=
  foldl apply_call c calls.

Definition is_setAuth (k : call) : bool :=
  match k with
  | CallSetAuth _ => true
  | _ => false
  end.

(** ** Fetching

    [fetchHtml] awaits [client.get(url)] and returns [response.data];
    what the HTTP client throws is logged and thrown again.  The HTTP
    client is the second library of the service; the components read
    the [message] of whatever they catch. *)

Inductive response : Type :=
  | Body (data : string)
  | Failed (message : string).

Class Http : Type := {
  (** [await client.get(url)] under the client's defaults. *)
  http_get : client → string → response;
  (** [err.message] of an error thrown by the query library or [URL]. *)
  error_message : error → string
}.

Definition fetchHtml {H : Http} (scraper : client) (url : string) : response :=
  http_get scraper url.

(** The outcome of a [try] block: its value, or the message of what was
    caught. *)
Inductive tried (A : Type) : Type :=
  | Done (a : A)
  | Caught (message : string).
Arguments Done {A} a.
Arguments Caught {A} message.

(** [const html = await scraper.fetchHtml(url); body(html)] inside a
    [try]. *)
Definition try_fetch {H : Http} {A : Type} (scraper : client) (url : string)
    (body : string → result A) : tried A :=
  match fetchHtml scraper url with
  | Failed message => Caught message
  | Body html =>
      match body html with
      | Ok a => Done a
      | Throw e => Caught (error_message e)
      end
  end.

(** ** The basic scraper screen (WebScraper.js)

    The state is the component's [useState] cells; a handler is the
    state it leaves once it has run to completion, its setter calls
    applied in program order. *)

Module WebScraper.

Record state : Type := State {
  loading : bool;
  error : option string;
  textResults : option texts;
  imageResults : list Image.t;
  linkResults : list Link.t
}.

(** [const scraper = new WebScraperService()]. *)
Definition scraper : client :=
  new_WebScraperService {| opt_headers := None; opt_auth := None; opt_timeout := None |}.

Definition setError (e : option string) (st : state) : state :=
  {| loading := loading st; error := e; textResults := textResults st;
     imageResults := imageResults st; linkResults := linkResults st |}.

Definition setLoading (b : bool) (st : state) : state :=
  {| loading := b; error := error st; textResults := textResults st;
     imageResults := imageResults st; linkResults := linkResults st |}.

Definition setTextResults (t : option texts) (st : state) : state :=
  {| loading := loading st; error := error st; textResults := t;
     imageResults := imageResults st; linkResults := linkResults st |}.

Definition setImageResults (images : list Image.t) (st : state) : state :=
  {| loading := loading st; error := error st; textResults := textResults st;
     imageResults := images; linkResults := linkResults st |}.

Definition setLinkResults (links : list Link.t) (st : state) : state :=
  {| loading := loading st; error := error st; textResults := textResults st;
     imageResults := imageResults st; linkResults := links |}.

(** What the [switch (scrapeType)] does with the fetched page: the
    setter it ends with, or a throw. *)
Definition extract {P : Platform} (selector scrapeType html url : string)
  : result (state → state) :=
  if String.eqb scrapeType "text" then
    if JS.truthy selector then
      text ← extractText html (OneSelector selector);
      Ok (setTextResults (Some text))
    else Ok (setError (Some "Please enter a CSS selector for text extraction"))
  else if String.eqb scrapeType "images" then
    images ← extractImages html (JS.or_str (Some selector) "img") url;
    Ok (setImageResults images)
  else if String.eqb scrapeType "links" then
    links ← extractLinks html (JS.or_str (Some selector) "a") url;
    Ok (setLinkResults links)
  else Ok (setError (Some "Invalid scrape type")).

Definition handleScrape {P : Platform} {H : Http}
    (url selector scrapeType : string) (st : state) : state :=
  if negb (JS.truthy url) then setError (Some "Please enter a URL") st
  else
    let st := setLoading true st in
    let st := setError None st in
    let st := setTextResults None st in
    let st := setImageResults [] st in
    let st := setLinkResults [] st in
    let st :=
      match try_fetch scraper url (λ html, extract selector scrapeType html url) with
      | Done set => set st
      | Caught message => setError (Some ("Error: " +:+ message)) st
      end in
    setLoading false st.

End WebScraper.

(** ** The screen with authentication (WebScraperWithAuth.js) *)

Module WebScraperWithAuth.

(** What [setResults] is given: the structured data, or the object of
    the default extraction. *)
Inductive scraped : Type :=
  | Structured (data : gmap string value)
  | Defaults (title : texts) (images : list Image.t) (links : list Link.t).

Record state : Type := State {
  loading : bool;
  error : option string;
  results : option scraped
}.

(** The authentication form. *)
Record form : Type := Form {
  useAuth : bool;
  authType : string;
  username : string;
  password : string;
  cookies : string
}.

(** The [useEffect] that configures authentication, run on the
    instance kept in [useState]. *)
Definition configure (f : form) (scraper : client) : client :=
  if useAuth f then
    if String.eqb (authType f) "basic" && JS.truthy (username f)
       && JS.truthy (password f)
    then setAuth (Some (Credentials (username f) (password f))) scraper
    else if String.eqb (authType f) "cookie" && JS.truthy (cookies f)
    then setCookies (cookies f) scraper
    else scraper
  else scraper.

(** The effect after each of a run of form states. *)
Definition configure_all (scraper : client) (forms : list form) : client :=
  foldl (λ c f, configure f c) scraper forms.

(** The mapping literal of [handleScrape]; the [value] properties of
    its [custom] fields are not part of a field as the service reads
    it. *)
Definition mapping (selector : string) : gmap string Field.spec :=
  {[ "title" := Field.Bare "title";
     "headings" := Field.Obj {| Field.selector := Some "h1, h2, h3";
                                Field.type := Some "list"; Field.attr := None |};
     "mainContent" := Field.Obj {| Field.selector := Some selector;
                                   Field.type := Some "text"; Field.attr := None |};
     "images" := Field.Obj {| Field.selector := None; Field.type := Some "custom";
                              Field.attr := None |};
     "links" := Field.Obj {| Field.selector := None; Field.type := Some "custom";
                             Field.attr := None |} ]}.

(** The body of the [try] after the fetch.  The object literal is built
    first, which runs [extractImages] and [extractLinks] for its
    [value] properties. *)
Definition extract {P : Platform} (selector html url : string) : result scraped :=
  if JS.truthy selector then
    _ ← extractImages html "img" url;
    _ ← extractLinks html "a" url;
    data ← extractStructuredData html (mapping selector);
    Ok (Structured data)
  else
    title ← extractText html (OneSelector "title");
    images ← extractImages html "img" url;
    links ← extractLinks html "a" url;
    Ok (Defaults title images links).

Definition setLoading (b : bool) (st : state) : state :=
  {| loading := b; error := error st; results := results st |}.

Definition setError (e : option string) (st : state) : state :=
  {| loading := loading st; error := e; results := results st |}.

Definition setResults (r : option scraped) (st : state) : state :=
  {| loading := loading st; error := error st; results := r |}.

Definition handleScrape {P : Platform} {H : Http} (scraper : client)
    (url selector : string) (st : state) : state :=
  if negb (JS.truthy url) then setError (Some "Please enter a URL") st
  else
    let st := setLoading true st in
    let st := setError None st in
    let st := setResults None st in
    let st :=
      match try_fetch scraper url (λ html, extract selector html url) with
      | Done r => setResults (Some r) st
      | Caught message => setError (Some ("Error: " +:+ message)) st
      end in
    setLoading false st.

End WebScraperWithAuth.

(** ** The test screen (WebScraperTest.js) *)

Module WebScraperTest.

(** [{ count: xs.length, samples: xs.slice(0, 3) }]. *)
Record summary (A : Type) : Type := Summary {
  count : nat;
  samples : list A
}.
Arguments Summary {A} count samples.
Arguments count {A} s.
Arguments samples {A} s.

Definition summarize {A : Type} (xs : list A) : summary A :=
  {| count := length xs; samples := take 3 xs |}.

(** The [results] object: one optional entry per test.  The [auth]
    entry is [{ success: true, response }]. *)
Record results : Type := Results {
  text : option (texts * texts);        (* [{ title, paragraph }] *)
  images : option (summary Image.t);
  links : option (summary Link.t);
  auth : option string
}.

Definition no_results : results :=
  {| text := None; images := None; links := None; auth := None |}.

Record state : Type := State {
  outcome : results;     (* the [results] cell *)
  loading : bool;
  error : option string
}.

Definition url_text : string := "https://example.com".
Definition url_images : string := "https://unsplash.com".
Definition url_links : string := "https://news.ycombinator.com".
Definition url_auth : string := "https://httpbin.org/basic-auth/user/passwd".

Definition setLoading (b : bool) (st : state) : state :=
  {| outcome := outcome st; loading := b; error := error st |}.

Definition setError (e : option string) (st : state) : state :=
  {| outcome := outcome st; loading := loading st; error := e |}.

(** [setResults(prev => f(prev))]. *)
Definition setResults (f : results → results) (st : state) : state :=
  {| outcome := f (outcome st); loading := loading st; error := error st |}.

(** The frame every test shares: [setLoading(true); setError(null);
    try { ... setResults(prev => ...) } catch (err) { setError(prefix +
    err.message) } finally { setLoading(false) }]. *)
Definition run_test {A : Type} (prefix : string) (attempt : tried A)
    (record : A → results → results) (st : state) : state :=
  let st := setLoading true st in
  let st := setError None st in
  let st :=
    match attempt with
    | Done a => setResults (record a) st
    | Caught message => setError (Some (prefix +:+ message)) st
    end in
  setLoading false st.

Definition testTextExtraction {P : Platform} {H : Http} (scraper : client)
    (st : state) : state :=
  run_test "Text extraction test failed: "
    (try_fetch scraper url_text (λ html,
       title ← extractText html (OneSelector "h1");
       paragraph ← extractText html (OneSelector "p");
       Ok (title, paragraph)))
    (λ tp prev, {| text := Some tp; images := images prev; links := links prev;
                   auth := auth prev |}) st.

Definition testImageExtraction {P : Platform} {H : Http} (scraper : client)
    (st : state) : state :=
  run_test "Image extraction test failed: "
    (try_fetch scraper url_images (λ html, extractImages html "img" url_images))
    (λ found prev, {| text := text prev; images := Some (summarize found);
                      links := links prev; auth := auth prev |}) st.

Definition testLinkExtraction {P : Platform} {H : Http} (scraper : client)
    (st : state) : state :=
  run_test "Link extraction test failed: "
    (try_fetch scraper url_links (λ html, extractLinks html "a" url_links))
    (λ found prev, {| text := text prev; images := images prev;
                      links := Some (summarize found); auth := auth prev |}) st.

(** [scraper.setAuth({ username: 'user', password: 'passwd' })] comes
    first, inside the [try]; the instance it changes is the one the
    fetch then uses. *)
Definition testAuthentication {P : Platform} {H : Http} (scraper : client)
    (st : state) : state :=
  run_test "Authentication test failed: "
    (try_fetch (setAuth (Some (Credentials "user" "passwd")) scraper) url_auth
       (λ html, Ok html))
    (λ html prev, {| text := text prev; images := images prev;
                     links := links prev; auth := Some html |}) st.

(** [runAllTests]: no test lets an error out, so the [catch] of
    [runAllTests] itself has nothing to catch. *)
Definition runAllTests {P : Platform} {H : Http} (scraper : client) (st : state)
  : state :=
  let st := setLoading true st in
  let st := setError None st in
  let st := setResults (λ _, no_results) st in
  let st := testTextExtraction scraper st in
  let st := testImageExtraction scraper st in
  let st := testLinkExtraction scraper st in
  let st := testAuthentication scraper st in
  setLoading false st.

End WebScraperTest.

(** ** A sample HTTP client

    It serves the sample documents under the URLs the examples use and
    fails for every other URL. *)

Module DemoHttp.

Definition get (scraper : client) (url : string) : response :=
  if String.eqb url "https://h.example/page" then Body Sample.doc_page
  else if String.eqb url "https://h.example/abs" then Body Demo.doc_abs
  else if String.eqb url WebScraperTest.url_auth then
    match auth scraper with
    | Some _ => Body "{}"
    | None => Failed "Request failed with status code 401"
    end
  else Failed "Network Error".

Definition message (e : error) : string :=
  match e with
  | SelectorError => "Malformed selector"
  | UrlError => "Invalid URL"
  end.

Definition http : Http := {| http_get := get; error_message := message |}.

Definition initial : WebScraper.state :=
  {| WebScraper.loading := false; WebScraper.error := None;
     WebScraper.textResults := Some (OneText "old");
     WebScraper.imageResults := []; WebScraper.linkResults := [] |}.

Definition basic_form : WebScraperWithAuth.form :=
  {| WebScraperWithAuth.useAuth := true; WebScraperWithAuth.authType := "basic";
     WebScraperWithAuth.username := "u"; WebScraperWithAuth.password := "p";
     WebScraperWithAuth.cookies := "" |}.

Definition cookie_form : WebScraperWithAuth.form :=
  {| WebScraperWithAuth.useAuth := true; WebScraperWithAuth.authType := "cookie";
     WebScraperWithAuth.username := "u"; WebScraperWithAuth.password := "p";
     WebScraperWithAuth.cookies := "session=abc123" |}.

Definition off_form : WebScraperWithAuth.form :=
  {| WebScraperWithAuth.useAuth := false; WebScraperWithAuth.authType := "cookie";
     WebScraperWithAuth.username := ""; WebScraperWithAuth.password := "";
     WebScraperWithAuth.cookies := "" |}.

End DemoHttp.

(** ** Documents with an empty attribute *)

Module Edge.

(** [<img src="">] *)
Definition doc_empty_src : string :=
  "<img src=" +:+ Sample.dq +:+ Sample.dq +:+ ">".

(** [<a href="">x</a>] *)
Definition doc_empty_href : string :=
  "<a href=" +:+ Sample.dq +:+ Sample.dq +:+ ">x</a>".

Definition img_empty : element :=
  {| tagName := "img"; attribs := {[ "src" := "" ]};
     textContent := ""; innerHTML := "" |}.

Definition a_empty : element :=
  {| tagName := "a"; attribs := {[ "href" := "" ]};
     textContent := "x"; innerHTML := "x" |}.

Definition edge_select (html selector : string) : option (list element) :=
  if String.eqb html doc_empty_src && String.eqb selector "img" then Some [img_empty]
  else if String.eqb html doc_empty_href && String.eqb selector "a" then Some [a_empty]
  else Demo.demo_select html selector.

Definition platform : Platform :=
  {| select := edge_select; resolve := Sample.sample_resolve;
     resolve_nonempty := Sample.sample_resolve_nonempty |}.

(** NBSP, [T], NBSP, in UTF-8. *)
Definition nbsp_T : string :=
  String "194" (String "160" (String "T" (String "194" (String "160" "")))).

End Edge.

(** * Properties *)

(** ** Loops *)

(** A loop that pushes at most one record per item is [collect]. *)
Lemma each_collect {A R : Type} (step : A → list R → result (list R))
    (f : A → result (option R)) (xs : list A) :
  (∀ x acc, x ∈ xs →
     step x acc = (r ← f x; Ok (acc ++ option_list r)%list)) →
  ∀ acc, each step xs acc = (rs ← collect f xs; Ok (acc ++ rs)%list).
Proof.
  induction xs as [|x xs IH]; intros Hstep acc; simpl.
  - by rewrite app_nil_r.
  - rewrite Hstep by apply list_elem_of_here.
    destruct (f x) as [r|e]; simpl; [|done].
    rewrite IH by (intros; apply Hstep; by apply list_elem_of_further).
    destruct (collect f xs) as [rs|e]; simpl; [|done].
    by rewrite app_assoc.
Qed.

Lemma collect_total {A R : Type} (g : A → option R) (xs : list A) :
  collect (λ x, Ok (g x)) xs = Ok (omap g xs).
Proof.
  induction xs as [|x xs IH]; simpl; [done|].
  rewrite IH. simpl. by destruct (g x).
Qed.

Lemma collect_ext {A R : Type} (f g : A → result (option R)) (xs : list A) :
  (∀ x, x ∈ xs → f x = g x) → collect f xs = collect g xs.
Proof.
  induction xs as [|x xs IH]; intros Hfg; simpl; [done|].
  rewrite Hfg by apply list_elem_of_here.
  rewrite IH; [done|]. intros; apply Hfg; by apply list_elem_of_further.
Qed.

Lemma collect_fmap {A B R : Type} (f : B → result (option R)) (g : A → B)
    (xs : list A) :
  collect f (g <$> xs) = collect (f ∘ g) xs.
Proof.
  induction xs as [|x xs IH]; [done|].
  rewrite fmap_cons. simpl. by rewrite IH.
Qed.

(** The [list] case of the switch pushes the trimmed text of each
    element. *)
Lemma each_push_texts (els : list element) (acc : list string) :
  each (λ el items, Ok (items ++ [JS.trim (Cheerio.text [el])])%list) els acc
  = Ok (acc ++ ((λ el, JS.trim (Cheerio.text [el])) <$> els))%list.
Proof.
  revert acc. induction els as [|e els IH]; intros acc; simpl.
  - by rewrite app_nil_r.
  - rewrite IH. by rewrite <- app_assoc.
Qed.

(** ** Loops over the properties of an object

    Every [for..in] body of the service has the same shape: compute a
    value from the property, which may throw, then assign it under the
    property's key or leave the result alone. *)

Section ForIn.
Context {A V : Type}.
Variable f : A → result (option V).
Variable body : string → A → gmap string V → result (gmap string V).
Hypothesis body_shape : ∀ k a res,
  body k a res =
    (ov ← f a; Ok (match ov with Some v => <[k := v]> res | None => res end)).

Lemma each_entries_Ok (l : list (string * A)) (acc : gmap string V) :
  NoDup l.*1 →
  (∀ k a, (k, a) ∈ l → ∃ ov, f a = Ok ov) →
  each (λ kv, body kv.1 kv.2) l acc
  = Ok (omap (assigned f) (list_to_map l : gmap string A) ∪ acc).
Proof.
  revert acc. induction l as [|[k a] l IH]; intros acc Hnd Hok; simpl.
  - by rewrite omap_empty, (left_id_L ∅ (∪)).
  - apply NoDup_cons in Hnd as [Hk Hnd]. simpl in Hk.
    destruct (Hok k a) as [ov Hov]; [apply list_elem_of_here|].
    rewrite body_shape, Hov. simpl.
    rewrite IH by (auto; intros; eapply Hok; by apply list_elem_of_further).
    f_equal. apply map_eq. intros i.
    apply (not_elem_of_list_to_map_1 (M:=gmap string)) in Hk.
    rewrite !lookup_union, !lookup_omap.
    destruct (decide (i = k)) as [->|Hne].
    + rewrite lookup_insert_eq, Hk. simpl. unfold assigned. rewrite Hov.
      destruct ov; simpl; rewrite ?lookup_insert_eq; by destruct (acc !! k).
    + rewrite lookup_insert_ne by done.
      destruct ov; [by rewrite lookup_insert_ne | done].
Qed.

Lemma each_entries_Throw (l : list (string * A)) (acc : gmap string V) k a e0 :
  (k, a) ∈ l → f a = Throw e0 →
  (∀ a' e, f a' = Throw e → e = e0) →
  each (λ kv, body kv.1 kv.2) l acc = Throw e0.
Proof.
  intros Hin Hthrow Hone. revert acc.
  induction l as [|[k' a'] l IH]; intros acc; simpl.
  - by apply elem_of_nil in Hin.
  - rewrite body_shape.
    destruct (f a') as [ov|e] eqn:Hfa; simpl.
    + apply IH. apply elem_of_cons in Hin as [Heq|Hin]; [|done].
      injection Heq as -> ->. congruence.
    + f_equal. by eapply Hone.
Qed.

(** No property throws: the result holds exactly what was assigned. *)
Lemma for_in_Ok (m : gmap string A) (acc : gmap string V) :
  (∀ k a, m !! k = Some a → ∃ ov, f a = Ok ov) →
  for_in m body acc = Ok (omap (assigned f) m ∪ acc).
Proof.
  intros Hok. unfold for_in.
  rewrite each_entries_Ok.
  - by rewrite list_to_map_to_list.
  - apply NoDup_fst_map_to_list.
  - intros k a Hin. apply elem_of_map_to_list in Hin. eauto.
Qed.

(** Some property throws, and only one error can be thrown: the loop
    throws it. *)
Lemma for_in_Throw (m : gmap string A) (acc : gmap string V) k a e0 :
  m !! k = Some a → f a = Throw e0 →
  (∀ a' e, f a' = Throw e → e = e0) →
  for_in m body acc = Throw e0.
Proof.
  intros Hk Hthrow Hone. unfold for_in.
  eapply each_entries_Throw; eauto. by apply elem_of_map_to_list.
Qed.

(** Either every property evaluates, or one of them throws. *)
Lemma all_or_throw (m : gmap string A) :
  (∀ k a, m !! k = Some a → ∃ ov, f a = Ok ov)
  ∨ (∃ k a e, m !! k = Some a ∧ f a = Throw e).
Proof.
  induction m as [|k a m Hk _ IH] using map_first_key_ind.
  - left. intros k a Hka. by rewrite lookup_empty in Hka.
  - destruct IH as [IH|(k' & a' & e & Hk' & He)].
    + destruct (f a) as [ov|e] eqn:Hfa.
      * left. intros k' a' Hka.
        destruct (decide (k' = k)) as [->|Hne].
        -- rewrite lookup_insert_eq in Hka. injection Hka as <-. eauto.
        -- rewrite lookup_insert_ne in Hka by done. eauto.
      * right. exists k, a, e. by rewrite lookup_insert_eq.
    + right. exists k', a', e. split; [|done].
      rewrite lookup_insert_ne; [done|]. intros ->. congruence.
Qed.

(** The order in which the properties are visited is unobservable:
    any duplicate-free listing of the object, such as the property
    order JavaScript uses, gives the result of [for_in]. *)
Lemma for_in_perm (m : gmap string A) (l : list (string * A)) acc e0 :
  (∀ a e, f a = Throw e → e = e0) →
  NoDup l.*1 → list_to_map l = m →
  each (λ kv, body kv.1 kv.2) l acc = for_in m body acc.
Proof.
  intros Hone Hnd <-.
  destruct (all_or_throw (list_to_map l)) as [Hok|(k & a & e & Hk & He)].
  - rewrite for_in_Ok by done. apply each_entries_Ok; [done|].
    intros k a Hin. eapply Hok. by apply elem_of_list_to_map_1.
  - assert (e = e0) as -> by eauto.
    rewrite (for_in_Throw _ _ k a e0) by done.
    eapply each_entries_Throw; eauto.
    by apply elem_of_list_to_map_2.
Qed.

End ForIn.

(** ** The loop body of [extractStructuredData] *)

Section Fields.
Context {P : Platform}.

Lemma query_Some html selector els :
  select html selector = Some els → query html selector = Ok els.
Proof. unfold query. by intros ->. Qed.

Lemma query_throws html selector e :
  query html selector = Throw e → e = SelectorError.
Proof. unfold query. destruct (select html selector); congruence. Qed.

Lemma query_opt_throws html selector e :
  query_opt html selector = Throw e → e = SelectorError.
Proof. destruct selector; simpl; [apply query_throws | discriminate]. Qed.

(** Every case of the switch starts by running the query. *)
Lemma switch_type_query html o t :
  switch_type html o t
  = (els ← query_opt html (Field.selector o); Ok (type_value o t els)).
Proof.
  unfold switch_type, type_value.
  destruct (query_opt html (Field.selector o)) as [els|e]; simpl.
  - repeat (case_match; simpl; try done).
    by rewrite each_push_texts.
  - by repeat (case_match; simpl; try done).
Qed.

Lemma field_step_shape html key f res :
  field_step html key f res
  = (ov ← field_value html f;
     Ok (match ov with Some v => <[key := v]> res | None => res end)).
Proof.
  destruct f as [s|o]; simpl; unfold assign.
  - by destruct (query html s).
  - destruct (Field.type o) as [t|]; [|done].
    destruct (JS.truthy t); [|done].
    by destruct (switch_type html o t).
Qed.

(** The value of a field in terms of its query. *)
Lemma field_value_query html f :
  field_value html f
  = if assigns f then
      els ← query_opt html (field_selector f);
      Ok (Some (match f with
                | Field.Bare _ => VString (JS.trim (Cheerio.text els))
                | Field.Obj o => type_value o (default "" (Field.type o)) els
                end))
    else Ok None.
Proof.
  destruct f as [s|o]; simpl.
  - by destruct (query html s).
  - destruct (Field.type o) as [t|]; simpl; [|done].
    destruct (JS.truthy t); [|done].
    rewrite switch_type_query.
    by destruct (query_opt html (Field.selector o)).
Qed.

Lemma field_value_throws html f e :
  field_value html f = Throw e → e = SelectorError.
Proof.
  rewrite field_value_query. destruct (assigns f); [|discriminate].
  destruct (query_opt html (field_selector f)) eqn:Hq; simpl; [discriminate|].
  intros [= <-]. by eapply query_opt_throws.
Qed.

Lemma field_value_accepted html f els :
  query_opt html (field_selector f) = Ok els → ∃ ov, field_value html f = Ok ov.
Proof.
  intros Hq. rewrite field_value_query, Hq. destruct (assigns f); simpl; eauto.
Qed.

Lemma field_value_skipped html f :
  assigns f = false → field_value html f = Ok None.
Proof. intros Hf. by rewrite field_value_query, Hf. Qed.

(** ** [extractStructuredData] as a whole *)

Lemma extractStructuredData_Ok html (m : gmap string Field.spec) :
  (∀ k f, m !! k = Some f → ∃ ov, field_value html f = Ok ov) →
  extractStructuredData html m = Ok (omap (assigned (field_value html)) m).
Proof.
  intros Hok. unfold extractStructuredData.
  rewrite (for_in_Ok (field_value html)); [|apply field_step_shape|done].
  by rewrite (right_id_L ∅ (∪)).
Qed.

Lemma extractStructuredData_Throw html (m : gmap string Field.spec) k f e :
  m !! k = Some f → field_value html f = Throw e →
  extractStructuredData html m = Throw SelectorError.
Proof.
  intros Hk Hf. unfold extractStructuredData.
  eapply (for_in_Throw (field_value html)); eauto using field_step_shape.
  - assert (e = SelectorError) as <- by (by eapply field_value_throws). done.
  - intros. by eapply field_value_throws.
Qed.

Lemma extractStructuredData_Ok_inv html (m : gmap string Field.spec) r :
  extractStructuredData html m = Ok r →
  (∀ k f, m !! k = Some f → ∃ ov, field_value html f = Ok ov)
  ∧ r = omap (assigned (field_value html)) m.
Proof.
  intros Hr.
  destruct (all_or_throw (field_value html) m) as [Hok|(k & f & e & Hk & He)].
  - split; [done|]. rewrite extractStructuredData_Ok in Hr by done. congruence.
  - erewrite extractStructuredData_Throw in Hr by eauto. discriminate.
Qed.

Lemma extractStructuredData_Throw_inv html (m : gmap string Field.spec) e :
  extractStructuredData html m = Throw e →
  e = SelectorError
  ∧ ∃ k f, m !! k = Some f ∧ assigns f = true
           ∧ query_opt html (field_selector f) = Throw SelectorError.
Proof.
  intros He.
  destruct (all_or_throw (field_value html) m) as [Hok|(k & f & e' & Hk & Hf)].
  - rewrite extractStructuredData_Ok in He by done. discriminate.
  - erewrite extractStructuredData_Throw in He by eauto.
    injection He as <-. split; [done|]. exists k, f. split; [done|].
    rewrite field_value_query in Hf.
    destruct (assigns f); [|discriminate]. split; [done|].
    destruct (query_opt html (field_selector f)) as [els|e''] eqn:Hq;
      simpl in Hf; [discriminate|].
    f_equal. by eapply query_opt_throws.
Qed.

(** The result at one key. *)
Lemma extractStructuredData_lookup html (m : gmap string Field.spec) r k :
  extractStructuredData html m = Ok r →
  r !! k = m !! k ≫= assigned (field_value html).
Proof.
  intros Hr. apply extractStructuredData_Ok_inv in Hr as [_ ->].
  apply lookup_omap.
Qed.

(** Two mappings whose keys contribute alike give the same result; a
    key that is missing contributes what a skipped field does. *)
Lemma extractStructuredData_ext html (m1 m2 : gmap string Field.spec) :
  (∀ k, from_option (field_value html) (Ok None) (m1 !! k)
        = from_option (field_value html) (Ok None) (m2 !! k)) →
  extractStructuredData html m1 = extractStructuredData html m2.
Proof.
  intros Hext.
  destruct (all_or_throw (field_value html) m1) as [Hok|(k & f & e & Hk & He)].
  - assert (∀ k f, m2 !! k = Some f → ∃ ov, field_value html f = Ok ov) as Hok2.
    { intros k f2 Hk. specialize (Hext k). rewrite Hk in Hext. simpl in Hext.
      rewrite <- Hext. destruct (m1 !! k) as [f1|] eqn:Hk1; simpl; eauto. }
    rewrite !extractStructuredData_Ok by done.
    f_equal. apply map_eq. intros k. rewrite !lookup_omap.
    specialize (Hext k). unfold assigned.
    destruct (m1 !! k) as [f1|] eqn:Hk1, (m2 !! k) as [f2|] eqn:Hk2;
      simpl in *; try done.
    + by rewrite Hext.
    + by rewrite Hext.
    + by rewrite <- Hext.
  - specialize (Hext k) as Hext'. rewrite Hk in Hext'. simpl in Hext'.
    destruct (m2 !! k) as [f2|] eqn:Hk2; simpl in Hext'; [|congruence].
    erewrite (extractStructuredData_Throw html m1) by eauto.
    symmetry. eapply extractStructuredData_Throw; [done|]. by rewrite <- Hext'.
Qed.

(** Nothing throws as long as every selector that is used is accepted. *)
Lemma extractStructuredData_accepted html (m : gmap string Field.spec) :
  (∀ k f, m !! k = Some f → assigns f = true →
     ∃ els, query_opt html (field_selector f) = Ok els) →
  ∃ r, extractStructuredData html m = Ok r.
Proof.
  intros Hacc. eexists. apply extractStructuredData_Ok.
  intros k f Hk. destruct (assigns f) eqn:Hf.
  - destruct (Hacc k f Hk Hf) as [els Hq]. by eapply field_value_accepted.
  - rewrite field_value_skipped by done. eauto.
Qed.

Lemma field_value_no_match html f :
  assigns f = true → query_opt html (field_selector f) = Ok [] →
  field_value html f = Ok (Some (no_match_value f)).
Proof.
  intros Hf Hq. rewrite field_value_query, Hf, Hq. simpl. do 2 f_equal.
  destruct f as [s|o]; [done|].
  unfold type_value, no_match_value.
  destruct (String.eqb_spec (default "" (Field.type o)) "text") as [->|_];
    [done|].
  by repeat case_match.
Qed.

Lemma field_value_is_Some html f ov :
  field_value html f = Ok ov → is_Some ov ↔ assigns f = true.
Proof.
  rewrite field_value_query. destruct (assigns f).
  - destruct (query_opt html (field_selector f)); simpl; [|discriminate].
    intros [= <-]. split; eauto.
  - intros [= <-]. split; [by intros [? ?] | discriminate].
Qed.

(** The property order JavaScript visits the mapping in is any
    duplicate-free listing of it; the result does not depend on it. *)
Lemma extractStructuredData_order html (m : gmap string Field.spec)
    (l : list (string * Field.spec)) :
  NoDup l.*1 → list_to_map l = m →
  each (λ kv, field_step html kv.1 kv.2) l ∅ = extractStructuredData html m.
Proof.
  intros Hnd Hm. unfold extractStructuredData.
  eapply (for_in_perm (field_value html)); eauto using field_step_shape.
  intros f e. apply field_value_throws.
Qed.

(** [extractText] on an object of selectors: one entry per key. *)
Lemma extractText_many html (m : gmap string string) :
  (∀ k s, m !! k = Some s → is_Some (select html s)) →
  extractText html (ManySelectors m)
  = Ok (ManyTexts
          (omap (λ s, (λ els, JS.trim (Cheerio.text els)) <$> select html s) m)).
Proof.
  intros Hsel. unfold extractText.
  rewrite (for_in_Ok
             (λ s, els ← query html s; Ok (Some (JS.trim (Cheerio.text els))))).
  - simpl. rewrite (right_id_L ∅ (∪)). do 2 f_equal.
    apply map_eq. intros k. rewrite !lookup_omap.
    destruct (m !! k) as [s|]; simpl; [|done].
    unfold assigned, query. by destruct (select html s).
  - intros k s res. by destruct (query html s).
  - intros k s Hk. destruct (Hsel k s Hk) as [els Hels].
    unfold query. rewrite Hels. simpl. eauto.
Qed.

End Fields.

(** ** Images and links *)

Section Records.
Context {P : Platform}.

Lemma truthy_true s : JS.truthy s = true ↔ s ≠ "".
Proof. destruct s; simpl; split; congruence. Qed.

Lemma or_null_nonempty (a : option string) : a ≠ Some "" → JS.or_null a = a.
Proof. destruct a as [[|c s]|]; simpl; congruence. Qed.

Lemma or_str_default (a : option string) : JS.or_str a "" = default "" a.
Proof. by destruct a as [[|c s]|]. Qed.


(** Without a base URL the attribute is left as read. *)
Lemma handle_relative_no_base u : handle_relative u "" = Ok u.
Proof.
  destruct u as [s|]; simpl; [|done].
  by rewrite andb_false_r.
Qed.

Lemma handle_relative_described u baseUrl :
  u ≠ "" → baseUrl ≠ "" →
  handle_relative (Some u) baseUrl = (Some <$> described_url u baseUrl).
Proof.
  intros Hu Hb. simpl. unfold described_url.
  apply truthy_true in Hu, Hb. rewrite Hu, Hb. simpl.
  rewrite andb_true_r. by destruct (JS.startsWith u "/").
Qed.

Lemma described_url_nonempty u baseUrl url :
  u ≠ "" → described_url u baseUrl = Ok url → url ≠ "".
Proof.
  unfold described_url, new_URL_href. intros Hu.
  destruct (JS.startsWith u "/"); [|congruence].
  destruct (resolve u baseUrl) as [h|] eqn:Hh; [|discriminate].
  intros [= <-] ->. by apply resolve_nonempty in Hh.
Qed.

Lemma image_step_unresolved e images :
  image_step "" e images = Ok (images ++ option_list (unresolved_image e))%list.
Proof.
  unfold image_step, unresolved_image. rewrite handle_relative_no_base. simpl.
  destruct (JS.or _ _) as [u|]; [|by rewrite app_nil_r].
  destruct (JS.truthy u); [done | by rewrite app_nil_r].
Qed.

Lemma link_step_unresolved e links :
  link_step "" e links = Ok (links ++ option_list (unresolved_link e))%list.
Proof.
  unfold link_step, unresolved_link. rewrite handle_relative_no_base. simpl.
  destruct (getAttr e "href") as [u|]; [|by rewrite app_nil_r].
  destruct (JS.truthy u); [done | by rewrite app_nil_r].
Qed.

(** On an element with no empty attribute, and with a base URL, the
    callback does what the spec describes. *)
Lemma image_step_described baseUrl e images :
  baseUrl ≠ "" →
  nonempty_attrs ["src"; "data-src"; "width"; "height"] e →
  image_step baseUrl e images
  = (r ← described_image baseUrl e; Ok (images ++ option_list r)%list).
Proof.
  intros Hb Hne. unfold image_step, described_image.
  assert (getAttr e "src" ≠ Some "") as Hsrc by (apply Hne; set_solver).
  assert (getAttr e "data-src" ≠ Some "") as Hdata by (apply Hne; set_solver).
  rewrite !or_null_nonempty by (apply Hne; set_solver).
  rewrite or_str_default.
  assert (∀ u, u ≠ "" →
    (imageUrl ← handle_relative (Some u) baseUrl;
     match imageUrl with
     | Some u0 =>
         if JS.truthy u0 then
           Ok (images ++ [ {| Image.url := u0;
                             Image.alt := default "" (getAttr e "alt");
                             Image.width := getAttr e "width";
                             Image.height := getAttr e "height" |} ])%list
         else Ok images
     | None => Ok images
     end)
    = (r ← (url ← described_url u baseUrl;
            Ok (Some {| Image.url := url;
                        Image.alt := default "" (getAttr e "alt");
                        Image.width := getAttr e "width";
                        Image.height := getAttr e "height" |}));
       Ok (images ++ option_list r)%list)) as Hcase.
  { intros u Hu. rewrite handle_relative_described by done.
    destruct (described_url u baseUrl) as [url|err] eqn:Hurl; simpl; [|done].
    apply described_url_nonempty in Hurl; [|done].
    apply truthy_true in Hurl. by rewrite Hurl. }
  destruct (getAttr e "src") as [s|] eqn:Hs.
  - assert (s ≠ "") as Hs' by congruence.
    unfold JS.or. simpl. apply truthy_true in Hs' as Ht. rewrite Ht.
    by apply Hcase.
  - unfold JS.or. simpl.
    destruct (getAttr e "data-src") as [d|] eqn:Hd.
    + apply Hcase. congruence.
    + simpl. by rewrite app_nil_r.
Qed.

Lemma link_step_described baseUrl e links :
  baseUrl ≠ "" →
  nonempty_attrs ["href"] e →
  link_step baseUrl e links
  = (r ← described_link baseUrl e; Ok (links ++ option_list r)%list).
Proof.
  intros Hb Hne. unfold link_step, described_link.
  assert (getAttr e "href" ≠ Some "") as Hhref by (apply Hne; set_solver).
  destruct (getAttr e "href") as [u|] eqn:Hu.
  - assert (u ≠ "") as Hu' by congruence.
    rewrite handle_relative_described by done.
    destruct (described_url u baseUrl) as [url|err] eqn:Hurl; simpl; [|done].
    apply described_url_nonempty in Hurl; [|done].
    apply truthy_true in Hurl. by rewrite Hurl.
  - simpl. by rewrite app_nil_r.
Qed.

(** An empty attribute reads as a missing one. *)
Lemma getAttr_drop_empty e name :
  getAttr (drop_empty e) name = JS.or_null (getAttr e name).
Proof.
  unfold getAttr, drop_empty. simpl. rewrite map_lookup_filter.
  by destruct (attribs e !! name) as [[|c s]|].
Qed.

Lemma drop_empty_nonempty names e : nonempty_attrs names (drop_empty e).
Proof.
  intros n _. rewrite getAttr_drop_empty.
  by destruct (getAttr e n) as [[|c s]|].
Qed.

Lemma image_step_drop_empty baseUrl e images :
  image_step baseUrl e images = image_step baseUrl (drop_empty e) images.
Proof.
  unfold image_step. rewrite !getAttr_drop_empty.
  assert (∀ a, JS.or_null (JS.or_null a) = JS.or_null a) as Hidem
    by (by intros [[|c s]|]).
  assert (∀ a, JS.or_str (JS.or_null a) "" = JS.or_str a "") as Hstr
    by (by intros [[|c s]|]).
  rewrite !Hidem, Hstr.
  by destruct (getAttr e "src") as [[|c s]|],
              (getAttr e "data-src") as [[|c' s']|].
Qed.

Lemma link_step_drop_empty baseUrl e links :
  link_step baseUrl e links = link_step baseUrl (drop_empty e) links.
Proof.
  unfold link_step. rewrite !getAttr_drop_empty.
  by destruct (getAttr e "href") as [[|c s]|].
Qed.

Lemma described_image_drop_empty baseUrl e :
  nonempty_attrs ["src"; "data-src"; "width"; "height"] e →
  described_image baseUrl (drop_empty e) = described_image baseUrl e.
Proof.
  intros Hne. unfold described_image. rewrite !getAttr_drop_empty.
  rewrite !(or_null_nonempty (getAttr e "src")),
          !(or_null_nonempty (getAttr e "data-src")),
          !(or_null_nonempty (getAttr e "width")),
          !(or_null_nonempty (getAttr e "height")) by (apply Hne; set_solver).
  by destruct (getAttr e "alt") as [[|c s]|].
Qed.

Lemma described_link_drop_empty baseUrl e :
  nonempty_attrs ["href"] e →
  described_link baseUrl (drop_empty e) = described_link baseUrl e.
Proof.
  intros Hne. unfold described_link. rewrite !getAttr_drop_empty.
  by rewrite !(or_null_nonempty (getAttr e "href")) by (apply Hne; set_solver).
Qed.



End Records.

(** ** Selectors that match nothing *)

(** C4. When the selector matches no element, [extractText] returns the
    empty string and [extractImages] and [extractLinks] return the empty
    list, whatever the base URL; none of them throws. *)
Theorem no_match_is_empty {P : Platform} (html selector baseUrl : string) :
  select html selector = Some [] →
  extractText html (OneSelector selector) = Ok (OneText "")
  ∧ extractImages html selector baseUrl = Ok []
  ∧ extractLinks html selector baseUrl = Ok [].
Proof.
  intros Hsel. unfold extractText, extractImages, extractLinks.
  rewrite (query_Some _ _ _ Hsel). by repeat split.
Qed.

Lemma no_match_is_empty_witness :
  extractText (P:=Sample.platform) Sample.doc_page (OneSelector "p") = Ok (OneText "")
  ∧ extractImages (P:=Sample.platform) Sample.doc_page "p" "https://h.example/" = Ok []
  ∧ extractLinks (P:=Sample.platform) Sample.doc_page "p" "https://h.example/" = Ok [].
Proof.
  apply (no_match_is_empty (P:=Sample.platform)). reflexivity.
Defined.

(** ** Image and link records *)

(** C5, as the code has it.  An attribute that is present but empty
    counts as absent, and a URL is resolved only when a base URL is
    given.  With a non-empty base URL [extractImages] returns what the
    spec describes: one record per matched element that has a URL, in
    document order, the URL read from [src] or else [data-src], elements
    with neither skipped, a URL starting with a slash resolved against
    the base, [alt] defaulting to the empty string, [width] and [height]
    null when absent; it throws exactly when the selector is rejected or
    a resolution fails.  With an empty base URL nothing is resolved and
    each record carries the attribute as it was read.  Where no matched
    element has an empty [src], [data-src], [width] or [height], the
    description applies to the elements as they are.  On the spec's
    example the result is the single record given there. *)
Theorem extractImages_described {P : Platform} :
  (∀ html selector baseUrl,
     baseUrl ≠ "" →
     extractImages html selector baseUrl
     = (els ← query html selector;
        collect (described_image baseUrl) (fmap (M:=list) drop_empty els)))
  ∧ (∀ html selector,
       extractImages html selector ""
       = (omap (M:=list) unresolved_image <$> query html selector))
  ∧ (∀ html selector baseUrl,
       baseUrl ≠ "" →
       (∀ els e, select html selector = Some els → e ∈ els →
          nonempty_attrs ["src"; "data-src"; "width"; "height"] e) →
       extractImages html selector baseUrl
       = (els ← query html selector; collect (described_image baseUrl) els))
  ∧ (select Sample.doc_img "img" = Some [Sample.img_a] →
     resolve "/a.png" "https://h.example/" = Some "https://h.example/a.png" →
     extractImages Sample.doc_img "img" "https://h.example/"
     = Ok [ {| Image.url := "https://h.example/a.png"; Image.alt := "x";
               Image.width := None; Image.height := None |} ]).
Proof.
  assert (∀ html selector baseUrl,
     baseUrl ≠ "" →
     extractImages html selector baseUrl
     = (els ← query html selector;
        collect (described_image baseUrl) (fmap (M:=list) drop_empty els)))
    as Hgen.
  { intros html selector baseUrl Hb. unfold extractImages, query.
    destruct (select html selector) as [els|] eqn:Hsel; simpl; [|done].
    rewrite (each_collect _ (described_image baseUrl ∘ drop_empty)).
    - rewrite collect_fmap. by destruct (collect _ els).
    - intros e acc _. rewrite image_step_drop_empty.
      apply image_step_described; [done|]. apply drop_empty_nonempty. }
  split; [done|]. split; [|split].
  - intros html selector. unfold extractImages.
    destruct (query html selector) as [els|err]; simpl; [|done].
    rewrite (each_collect _ (λ e, Ok (unresolved_image e))).
    + by rewrite collect_total.
    + intros e acc _. apply image_step_unresolved.
  - intros html selector baseUrl Hb Hne. rewrite Hgen by done. unfold query.
    destruct (select html selector) as [els|] eqn:Hsel; simpl; [|done].
    rewrite collect_fmap. apply collect_ext.
    intros e He. apply described_image_drop_empty. by eapply Hne.
  - intros Hsel Hres. unfold extractImages.
    rewrite (query_Some _ _ _ Hsel). simpl.
    unfold image_step.
    change (getAttr Sample.img_a "src") with (Some "/a.png").
    change (getAttr Sample.img_a "alt") with (Some "x").
    change (getAttr Sample.img_a "width") with (@None string).
    change (getAttr Sample.img_a "height") with (@None string).
    simpl. unfold new_URL_href. by rewrite Hres.
Qed.

Lemma extractImages_described_witness :
  extractImages (P:=Sample.platform) Sample.doc_lazy "img" "https://h.example/"
  = (els ← query (P:=Sample.platform) Sample.doc_lazy "img";
     collect (described_image (P:=Sample.platform) "https://h.example/")
       (fmap (M:=list) drop_empty els))
  ∧ extractImages (P:=Sample.platform) Sample.doc_img "img" "https://h.example/"
    = (els ← query (P:=Sample.platform) Sample.doc_img "img";
       collect (described_image (P:=Sample.platform) "https://h.example/") els)
  ∧ extractImages (P:=Sample.platform) Sample.doc_img "img" "https://h.example/"
    = Ok [ {| Image.url := "https://h.example/a.png"; Image.alt := "x";
              Image.width := None; Image.height := None |} ].
Proof.
  destruct (extractImages_described (P:=Sample.platform))
    as (Hgen & _ & Hlit & Hex).
  split; [|split].
  - apply Hgen. discriminate.
  - apply Hlit; [discriminate|].
    intros els e [= <-] He n Hn.
    apply list_elem_of_singleton in He as ->.
    repeat (apply elem_of_cons in Hn as [-> | Hn]; [vm_compute; discriminate|]).
    by apply elem_of_nil in Hn.
  - apply Hex; reflexivity.
Defined.

(** C5 as stated fails in two places.  On [<img src="">] the element
    has a [src], so the claim's words give a record with that URL, yet
    the code returns none.  And with the default, empty base URL the
    URL [/a.png] starts with a slash but is not resolved: the code
    returns it as read, where resolving against the empty base
    fails. *)
Lemma extractImages_described_counterexample :
  getAttr Edge.img_empty "src" = Some ""
  ∧ extractImages (P:=Edge.platform) Edge.doc_empty_src "img" "https://h.example/"
    = Ok []
  ∧ (els ← query (P:=Edge.platform) Edge.doc_empty_src "img";
     collect (described_image (P:=Edge.platform) "https://h.example/") els)
    = Ok [ {| Image.url := ""; Image.alt := "";
              Image.width := None; Image.height := None |} ]
  ∧ extractImages (P:=Sample.platform) Sample.doc_img "img" ""
    = Ok [ {| Image.url := "/a.png"; Image.alt := "x";
              Image.width := None; Image.height := None |} ]
  ∧ (els ← query (P:=Sample.platform) Sample.doc_img "img";
     collect (described_image (P:=Sample.platform) "") els)
    = Throw UrlError.
Proof. repeat split; vm_compute; reflexivity. Qed.

(** C6, as the code has it.  An [href] that is present but empty counts
    as absent, and an [href] is resolved only when a base URL is given.
    With a non-empty base URL [extractLinks] returns what the spec
    describes: one record per matched element that has an [href], in
    document order, elements without one skipped, an [href] starting
    with a slash resolved against the base, the text trimmed; it throws
    exactly when the selector is rejected or a resolution fails.  With
    an empty base URL nothing is resolved and each record carries the
    [href] as it was read.  Where no matched element has an empty
    [href], the description applies to the elements as they are.  On the
    spec's example the result is the single record given there. *)
Theorem extractLinks_described {P : Platform} :
  (∀ html selector baseUrl,
     baseUrl ≠ "" →
     extractLinks html selector baseUrl
     = (els ← query html selector;
        collect (described_link baseUrl) (fmap (M:=list) drop_empty els)))
  ∧ (∀ html selector,
       extractLinks html selector ""
       = (omap (M:=list) unresolved_link <$> query html selector))
  ∧ (∀ html selector baseUrl,
       baseUrl ≠ "" →
       (∀ els e, select html selector = Some els → e ∈ els →
          nonempty_attrs ["href"] e) →
       extractLinks html selector baseUrl
       = (els ← query html selector; collect (described_link baseUrl) els))
  ∧ (select Sample.doc_link "a" = Some [Sample.a_p] →
     resolve "/p" "https://h.example" = Some "https://h.example/p" →
     extractLinks Sample.doc_link "a" "https://h.example"
     = Ok [ {| Link.url := "https://h.example/p"; Link.text := "Hi" |} ]).
Proof.
  assert (∀ html selector baseUrl,
     baseUrl ≠ "" →
     extractLinks html selector baseUrl
     = (els ← query html selector;
        collect (described_link baseUrl) (fmap (M:=list) drop_empty els)))
    as Hgen.
  { intros html selector baseUrl Hb. unfold extractLinks, query.
    destruct (select html selector) as [els|] eqn:Hsel; simpl; [|done].
    rewrite (each_collect _ (described_link baseUrl ∘ drop_empty)).
    - rewrite collect_fmap. by destruct (collect _ els).
    - intros e acc _. rewrite link_step_drop_empty.
      apply link_step_described; [done|]. apply drop_empty_nonempty. }
  split; [done|]. split; [|split].
  - intros html selector. unfold extractLinks.
    destruct (query html selector) as [els|err]; simpl; [|done].
    rewrite (each_collect _ (λ e, Ok (unresolved_link e))).
    + by rewrite collect_total.
    + intros e acc _. apply link_step_unresolved.
  - intros html selector baseUrl Hb Hne. rewrite Hgen by done. unfold query.
    destruct (select html selector) as [els|] eqn:Hsel; simpl; [|done].
    rewrite collect_fmap. apply collect_ext.
    intros e He. apply described_link_drop_empty. by eapply Hne.
  - intros Hsel Hres. unfold extractLinks.
    rewrite (query_Some _ _ _ Hsel). simpl.
    unfold link_step.
    change (getAttr Sample.a_p "href") with (Some "/p").
    simpl. unfold new_URL_href. by rewrite Hres.
Qed.

Lemma extractLinks_described_witness :
  extractLinks (P:=Sample.platform) Sample.doc_link "a" "https://h.example"
  = (els ← query (P:=Sample.platform) Sample.doc_link "a";
     collect (described_link (P:=Sample.platform) "https://h.example")
       (fmap (M:=list) drop_empty els))
  ∧ extractLinks (P:=Sample.platform) Sample.doc_link "a" "https://h.example"
    = (els ← query (P:=Sample.platform) Sample.doc_link "a";
       collect (described_link (P:=Sample.platform) "https://h.example") els)
  ∧ extractLinks (P:=Sample.platform) Sample.doc_link "a" "https://h.example"
    = Ok [ {| Link.url := "https://h.example/p"; Link.text := "Hi" |} ].
Proof.
  destruct (extractLinks_described (P:=Sample.platform))
    as (Hgen & _ & Hlit & Hex).
  split; [|split].
  - apply Hgen. discriminate.
  - apply Hlit; [discriminate|].
    intros els e [= <-] He n Hn.
    apply list_elem_of_singleton in He as ->.
    repeat (apply elem_of_cons in Hn as [-> | Hn]; [vm_compute; discriminate|]).
    by apply elem_of_nil in Hn.
  - apply Hex; reflexivity.
Defined.

(** C6 as stated fails in two places.  On [<a href="">x</a>] the
    element has an [href], so the claim's words give a record for it,
    yet the code returns none.  And with the default, empty base URL
    the [href] [/p] starts with a slash but is not resolved: the code
    returns it as read, where resolving against the empty base
    fails. *)
Lemma extractLinks_described_counterexample :
  getAttr Edge.a_empty "href" = Some ""
  ∧ extractLinks (P:=Edge.platform) Edge.doc_empty_href "a" "https://h.example"
    = Ok []
  ∧ (els ← query (P:=Edge.platform) Edge.doc_empty_href "a";
     collect (described_link (P:=Edge.platform) "https://h.example") els)
    = Ok [ {| Link.url := ""; Link.text := "x" |} ]
  ∧ extractLinks (P:=Sample.platform) Sample.doc_link "a" ""
    = Ok [ {| Link.url := "/p"; Link.text := "Hi" |} ]
  ∧ (els ← query (P:=Sample.platform) Sample.doc_link "a";
     collect (described_link (P:=Sample.platform) "") els)
    = Throw UrlError.
Proof. repeat split; vm_compute; reflexivity. Qed.

(** C7. With an empty base URL [extractImages] and [extractLinks] never
    call the resolver: each record carries the attribute exactly as it
    was read, also when it starts with a slash, and the only way to throw
    is a rejected selector. *)
Theorem empty_base_passes_through {P : Platform} (html selector : string) :
  extractImages html selector ""
  = (omap (M:=list) unresolved_image <$> query html selector)
  ∧ extractLinks html selector ""
    = (omap (M:=list) unresolved_link <$> query html selector)
  ∧ (∀ e r, unresolved_image e = Some r →
       JS.or (getAttr e "src") (getAttr e "data-src") = Some (Image.url r))
  ∧ (∀ e r, unresolved_link e = Some r → getAttr e "href" = Some (Link.url r)).
Proof.
  split; [|split; [|split]].
  - unfold extractImages. destruct (query html selector) as [els|err]; simpl; [|done].
    rewrite (each_collect _ (λ e, Ok (unresolved_image e))).
    + by rewrite collect_total.
    + intros e acc _. apply image_step_unresolved.
  - unfold extractLinks. destruct (query html selector) as [els|err]; simpl; [|done].
    rewrite (each_collect _ (λ e, Ok (unresolved_link e))).
    + by rewrite collect_total.
    + intros e acc _. apply link_step_unresolved.
  - intros e r. unfold unresolved_image.
    destruct (JS.or _ _) as [u|]; [|discriminate].
    destruct (JS.truthy u); [|discriminate]. by intros [= <-].
  - intros e r. unfold unresolved_link.
    destruct (getAttr e "href") as [u|]; [|discriminate].
    destruct (JS.truthy u); [|discriminate]. by intros [= <-].
Qed.

Lemma empty_base_passes_through_witness :
  extractImages (P:=Sample.platform) Sample.doc_img "img" ""
  = Ok [ {| Image.url := "/a.png"; Image.alt := "x";
            Image.width := None; Image.height := None |} ]
  ∧ extractLinks (P:=Sample.platform) Sample.doc_link "a" ""
    = Ok [ {| Link.url := "/p"; Link.text := "Hi" |} ].
Proof.
  destruct (empty_base_passes_through (P:=Sample.platform) Sample.doc_img "img")
    as (Himg & _).
  destruct (empty_base_passes_through (P:=Sample.platform) Sample.doc_link "a")
    as (_ & Hlink & _).
  split; [rewrite Himg | rewrite Hlink]; reflexivity.
Defined.



(** ** The client configuration *)

(** C9. [setHeaders] merges: a header named in the argument takes the
    argument's value, every other header keeps the value it had, so the
    default User-Agent of a fresh instance survives unless overridden;
    [setCookies c] sets the Cookie header to [c] and changes no other
    header; neither touches the timeout or the credentials. *)
Theorem setHeaders_merges :
  (∀ h c name, h !! name = None → headers (setHeaders h c) !! name = headers c !! name)
  ∧ (∀ h c name v, h !! name = Some v → headers (setHeaders h c) !! name = Some v)
  ∧ (∀ h o,
       h !! "User-Agent" = None →
       default ∅ (opt_headers o) !! "User-Agent" = None →
       headers (setHeaders h (new_WebScraperService o)) !! "User-Agent"
       = Some default_user_agent)
  ∧ (∀ cookies c, headers (setCookies cookies c) !! "Cookie" = Some cookies)
  ∧ (∀ cookies c name, name ≠ "Cookie" →
       headers (setCookies cookies c) !! name = headers c !! name)
  ∧ (∀ h c, timeout (setHeaders h c) = timeout c ∧ auth (setHeaders h c) = auth c)
  ∧ (∀ cookies c, timeout (setCookies cookies c) = timeout c
                  ∧ auth (setCookies cookies c) = auth c).
Proof.
  split; [|split; [|split; [|split; [|split; [|split]]]]].
  - intros h c name Hname. simpl. by rewrite lookup_union_r.
  - intros h c name v Hname. simpl. by apply lookup_union_Some_l.
  - intros h o Hh Ho. simpl. rewrite lookup_union_r by done.
    rewrite lookup_union_r by done. apply lookup_singleton_eq.
  - intros cookies c. simpl. apply lookup_union_Some_l, lookup_singleton_eq.
  - intros cookies c name Hname. simpl.
    rewrite lookup_union_r; [done|]. by apply lookup_singleton_ne.
  - by intros h c.
  - by intros cookies c.
Qed.

Lemma setHeaders_merges_witness :
  headers (setHeaders {[ "X-Token" := "t" ]} Sample.scraper) !! "Accept-Language"
  = Some "en"
  ∧ headers (setHeaders {[ "X-Token" := "t" ]} Sample.scraper) !! "X-Token" = Some "t"
  ∧ headers (setHeaders {[ "X-Token" := "t" ]} Sample.scraper) !! "User-Agent"
    = Some default_user_agent
  ∧ headers (setCookies "session=abc123" Sample.scraper) !! "Cookie"
    = Some "session=abc123"
  ∧ headers (setCookies "session=abc123" Sample.scraper) !! "User-Agent"
    = Some default_user_agent
  ∧ timeout (setCookies "session=abc123" Sample.scraper) = 5000%Z.
Proof.
  destruct setHeaders_merges as (Hkeep & Hset & Hua & Hck & Hother & Hframe & Hframe').
  split; [|split; [|split; [|split; [|split]]]].
  - rewrite Hkeep; reflexivity.
  - apply Hset. reflexivity.
  - apply Hua; reflexivity.
  - apply Hck.
  - rewrite Hother by discriminate. reflexivity.
  - rewrite (proj1 (Hframe' _ _)). reflexivity.
Defined.

(** ** Structured extraction *)

(** C8. A bare selector string and the field object with that selector
    and [type: 'text'] are interchangeable: replacing one by the other
    under any key changes nothing in what [extractStructuredData]
    returns or throws. *)
Theorem bare_string_is_text_type {P : Platform} (html : string)
    (m : gmap string Field.spec) (key s : string) (a : option string) :
  extractStructuredData html (<[key := Field.Bare s]> m)
  = extractStructuredData html
      (<[key := Field.Obj {| Field.selector := Some s; Field.type := Some "text";
                             Field.attr := a |}]> m).
Proof.
  apply extractStructuredData_ext. intros k.
  destruct (decide (k = key)) as [->|Hne].
  - rewrite !lookup_insert_eq. simpl.
    unfold switch_type. simpl. by destruct (query html s).
  - by rewrite !lookup_insert_ne.
Qed.

(** The spec's example: [{ title: 'h1', tags: { selector: '.tag', type:
    'list' } }] on the sample page. *)
Example title_and_tags_example :
  extractStructuredData (P:=Sample.platform) Sample.doc_page Sample.title_and_tags
  = Ok {[ "title" := VString "T"; "tags" := VArray ["a"; "b"] ]}.
Proof. vm_compute. reflexivity. Qed.

(** C1, as the code has it.  If [extractStructuredData] returns, the keys
    of the result are the keys of the mapping whose field is a bare
    string or an object with a non-empty [type]; so the key sets agree
    when every field is of that kind, and an object without [type] is
    left out.  A field whose selector matches nothing gets the empty
    string (bare string, [text], unrecognised [type]), the empty list
    ([list]), [null] ([html]) or [undefined] ([attr]).  Nothing throws as
    long as the query library accepts every selector that is used; a
    selector that matches nothing is no error. *)
Theorem extractStructuredData_keys {P : Platform} (html : string)
    (m : gmap string Field.spec) :
  ((∀ k f, m !! k = Some f → assigns f = true →
      ∃ els, query_opt html (field_selector f) = Ok els) →
   ∃ r, extractStructuredData html m = Ok r)
  ∧ (∀ r, extractStructuredData html m = Ok r →
       (∀ k, is_Some (r !! k) ↔ ∃ f, m !! k = Some f ∧ assigns f = true)
       ∧ ((∀ k f, m !! k = Some f → assigns f = true) → dom r = dom m)
       ∧ (∀ k f, m !! k = Some f → assigns f = true →
            query_opt html (field_selector f) = Ok [] →
            r !! k = Some (no_match_value f))).
Proof.
  split; [apply extractStructuredData_accepted|].
  intros r Hr.
  assert (∀ k, is_Some (r !! k) ↔ ∃ f, m !! k = Some f ∧ assigns f = true) as Hkeys.
  { intros k. rewrite (extractStructuredData_lookup _ _ _ k Hr).
    apply extractStructuredData_Ok_inv in Hr as [Hok _].
    destruct (m !! k) as [f|] eqn:Hk; simpl.
    - destruct (Hok k f Hk) as [ov Hov]. unfold assigned. rewrite Hov.
      rewrite (field_value_is_Some _ _ _ Hov). split; [eauto|].
      by intros (f' & [= <-] & Hf).
    - split; [by intros [? ?] | by intros (f' & ? & _)]. }
  split; [done|]. split.
  - intros Hall. apply set_eq. intros k. rewrite !elem_of_dom, Hkeys.
    split.
    + intros (f & Hk & _). eauto.
    + intros [f Hk]. eauto.
  - intros k f Hk Hf Hq. rewrite (extractStructuredData_lookup _ _ _ k Hr), Hk.
    simpl. unfold assigned. by rewrite field_value_no_match.
Qed.

Lemma extractStructuredData_keys_witness :
  (∃ r, extractStructuredData (P:=Sample.platform) Sample.doc_page
          Sample.untyped_and_html = Ok r)
  ∧ is_Some (({[ "body" := VNull ]} : gmap string value) !! "body")
  ∧ ({[ "body" := VNull ]} : gmap string value) !! "body"
    = Some (no_match_value
              (Field.Obj {| Field.selector := Some "p"; Field.type := Some "html";
                            Field.attr := None |})).
Proof.
  destruct (extractStructuredData_keys (P:=Sample.platform) Sample.doc_page
              Sample.untyped_and_html) as [Hok Hinv].
  split.
  - apply Hok. intros k f Hk _. unfold Sample.untyped_and_html in Hk.
    apply lookup_insert_Some in Hk as [[<- <-] | [_ Hk]]; [by eexists|].
    apply lookup_singleton_Some in Hk as [<- <-]. by eexists.
  - destruct (Hinv {[ "body" := VNull ]}) as (Hkeys & _ & Hnone);
      [vm_compute; reflexivity|].
    split.
    + apply Hkeys. eexists. split; reflexivity.
    + apply Hnone; reflexivity.
Defined.

(** C1 as stated fails twice on one mapping: the field without [type]
    is dropped from the result, and the [html] field whose selector
    matches nothing holds [null], not the empty string. *)
Lemma extractStructuredData_keys_counterexample :
  select (Platform:=Sample.platform) Sample.doc_page "p" = Some []
  ∧ extractStructuredData (P:=Sample.platform) Sample.doc_page
      Sample.untyped_and_html = Ok {[ "body" := VNull ]}
  ∧ dom ({[ "body" := VNull ]} : gmap string value) ≠ dom Sample.untyped_and_html
  ∧ ({[ "body" := VNull ]} : gmap string value) !! "body" ≠ Some (VString "").
Proof.
  split; [reflexivity|]. split; [vm_compute; reflexivity|]. split.
  - intros Hdom.
    assert ("title" ∈ dom Sample.untyped_and_html) as Hin
      by (apply elem_of_dom; by eexists).
    rewrite <- Hdom in Hin. apply elem_of_dom in Hin as [v Hv].
    vm_compute in Hv. discriminate.
  - vm_compute. discriminate.
Qed.

(** C2, as the code has it.  A field object whose [type] is missing (or
    empty) does not make [extractStructuredData] fail, and it is not read
    as text either: the loop skips it, so the call behaves as if the
    field were not in the mapping and the result has no such key.  The
    fall-back to text is for a [type] that is present, non-empty and
    none of [text], [html], [attr], [list]. *)
Theorem untyped_field_is_skipped {P : Platform} (html : string)
    (m : gmap string Field.spec) (key : string) (o : Field.object) :
  m !! key = Some (Field.Obj o) →
  (JS.truthy_opt (Field.type o) = false →
     extractStructuredData html m = extractStructuredData html (delete key m)
     ∧ ∀ r, extractStructuredData html m = Ok r → r !! key = None)
  ∧ (∀ t els r,
       Field.type o = Some t → JS.truthy t = true → known_type t = false →
       query_opt html (Field.selector o) = Ok els →
       extractStructuredData html m = Ok r →
       r !! key = Some (VString (JS.trim (Cheerio.text els)))).
Proof.
  intros Hkey. split.
  - intros Htype.
    assert (field_value html (Field.Obj o) = Ok None) as Hskip
      by by apply field_value_skipped.
    split.
    + apply extractStructuredData_ext. intros k.
      destruct (decide (k = key)) as [->|Hne].
      * by rewrite Hkey, lookup_delete_eq.
      * by rewrite lookup_delete_ne.
    + intros r Hr. rewrite (extractStructuredData_lookup _ _ _ key Hr), Hkey.
      simpl. unfold assigned. by rewrite Hskip.
  - intros t els r Ht Htruthy Hknown Hq Hr.
    rewrite (extractStructuredData_lookup _ _ _ key Hr), Hkey. simpl.
    unfold assigned. rewrite field_value_query. simpl.
    rewrite Ht. simpl. rewrite Htruthy, Hq. simpl. do 2 f_equal.
    unfold known_type in Hknown. unfold type_value.
    repeat (apply orb_false_elim in Hknown as [Hknown ?]).
    by repeat case_match.
Qed.

Lemma untyped_field_is_skipped_witness :
  (extractStructuredData (P:=Sample.platform) Sample.doc_page Sample.untyped_title
   = extractStructuredData (P:=Sample.platform) Sample.doc_page
       (delete "title" Sample.untyped_title)
   ∧ ∀ r, extractStructuredData (P:=Sample.platform) Sample.doc_page
            Sample.untyped_title = Ok r → r !! "title" = None)
  ∧ ({[ "title" := VString "T" ]} : gmap string value) !! "title"
    = Some (VString (JS.trim (Cheerio.text [Sample.h1_T]))).
Proof.
  split.
  - eapply (untyped_field_is_skipped (P:=Sample.platform)); reflexivity.
  - eapply (untyped_field_is_skipped (P:=Sample.platform) Sample.doc_page
              Sample.custom_title "title"); reflexivity.
Defined.

(** C2 as stated fails on [{ title: { selector: 'h1' } }]: the selector
    matches the heading, whose trimmed text is [T], yet the result has no
    [title] key. *)
Lemma untyped_field_counterexample :
  query (P:=Sample.platform) Sample.doc_page "h1" = Ok [Sample.h1_T]
  ∧ JS.trim (Cheerio.text [Sample.h1_T]) = "T"
  ∧ extractStructuredData (P:=Sample.platform) Sample.doc_page Sample.untyped_title
    = Ok ∅
  ∧ (∅ : gmap string value) !! "title" = None.
Proof. repeat split; vm_compute; reflexivity. Qed.

(** C3, as the code has it.  A field with [type: 'attr'] and no [attr]
    raises no configuration error.  [extractStructuredData] throws only
    when the query library rejects a selector; otherwise it returns, and
    the field holds what the library's [attr] gives for an undefined
    name: [undefined] when nothing matched, else the attribute table of
    the first matched element. *)
Theorem attr_without_name_returns {P : Platform} (html : string)
    (m : gmap string Field.spec) (key : string) (o : Field.object) :
  m !! key = Some (Field.Obj o) →
  Field.type o = Some "attr" →
  Field.attr o = None →
  ((∀ k f, m !! k = Some f → assigns f = true →
      ∃ els, query_opt html (field_selector f) = Ok els) →
   ∃ r, extractStructuredData html m = Ok r)
  ∧ (∀ r els,
       extractStructuredData html m = Ok r →
       query_opt html (Field.selector o) = Ok els →
       r !! key = Some (match els with
                        | [] => VUndefined
                        | e :: _ => VObject (attribs e)
                        end))
  ∧ (∀ e, extractStructuredData html m = Throw e →
       e = SelectorError
       ∧ ∃ k f, m !! k = Some f ∧ assigns f = true
                ∧ query_opt html (field_selector f) = Throw SelectorError).
Proof.
  intros Hkey Htype Hattr. split; [apply extractStructuredData_accepted|]. split.
  - intros r els Hr Hq.
    rewrite (extractStructuredData_lookup _ _ _ key Hr), Hkey. simpl.
    unfold assigned. rewrite field_value_query. simpl.
    rewrite Htype. simpl. rewrite Hq. simpl. do 2 f_equal.
    unfold type_value. simpl. rewrite Hattr. by destruct els.
  - apply extractStructuredData_Throw_inv.
Qed.

Lemma attr_without_name_returns_witness :
  (∃ r, extractStructuredData (P:=Sample.platform) Sample.doc_link
          Sample.attr_without_name = Ok r)
  ∧ ({[ "link" := VObject {[ "href" := "/p" ]} ]} : gmap string value) !! "link"
    = Some (VObject (attribs Sample.a_p)).
Proof.
  destruct (attr_without_name_returns (P:=Sample.platform) Sample.doc_link
              Sample.attr_without_name "link"
              {| Field.selector := Some "a"; Field.type := Some "attr";
                 Field.attr := None |})
    as (Hok & Hval & _); [reflexivity..|].
  split.
  - apply Hok. intros k f Hk _. unfold Sample.attr_without_name in Hk.
    apply lookup_singleton_Some in Hk as [<- <-]. by eexists.
  - apply (Hval _ [Sample.a_p]); vm_compute; reflexivity.
Defined.

(** C3 as stated fails on [{ link: { selector: 'a', type: 'attr' } }]:
    the call returns, with the anchor's attribute table under [link]. *)
Lemma attr_without_name_counterexample :
  extractStructuredData (P:=Sample.platform) Sample.doc_link Sample.attr_without_name
  = Ok {[ "link" := VObject {[ "href" := "/p" ]} ]}.
Proof. vm_compute. reflexivity. Qed.

(** * Further properties of the service *)

(** ** Helper facts about the loops *)

Lemma each_Throw_inv {A B : Type} (body : A → B → result B) xs acc e :
  each body xs acc = Throw e → ∃ x acc', x ∈ xs ∧ body x acc' = Throw e.
Proof.
  revert acc. induction xs as [|x xs IH]; intros acc; simpl; [discriminate|].
  destruct (body x acc) as [acc'|e'] eqn:Hx; simpl.
  - intros Hrest. destruct (IH _ Hrest) as (y & acc'' & Hy & Hbody).
    exists y, acc''. split; [by apply list_elem_of_further | done].
  - intros [= <-]. exists x, acc. split; [apply list_elem_of_here | done].
Qed.

Section MoreRecords.
Context {P : Platform}.

Lemma query_Ok_inv html selector els :
  query html selector = Ok els → select html selector = Some els.
Proof. unfold query. destruct (select html selector); congruence. Qed.

Lemma query_Throw_inv html selector e :
  query html selector = Throw e → e = SelectorError ∧ select html selector = None.
Proof. unfold query. destruct (select html selector); [discriminate|]. by intros [= <-]. Qed.

Lemma text_field_shape html key s (res : gmap string string) :
  (els ← query html s; Ok (<[key := JS.trim (Cheerio.text els)]> res))
  = (ov ← text_field html s;
     Ok (match ov with Some v => <[key := v]> res | None => res end)).
Proof. unfold text_field. by destruct (query html s). Qed.

Lemma text_field_throws html s e : text_field html s = Throw e → e = SelectorError.
Proof.
  unfold text_field. destruct (query html s) eqn:Hq; simpl; [discriminate|].
  intros [= <-]. by eapply query_throws.
Qed.

Lemma extractText_many_Throw html (m : gmap string string) k s :
  m !! k = Some s → select html s = None →
  extractText html (ManySelectors m) = Throw SelectorError.
Proof.
  intros Hk Hs. unfold extractText.
  rewrite (for_in_Throw (text_field html) _
             (λ k a res, text_field_shape html k a res) m ∅ k s SelectorError);
    [done|done| |].
  - unfold text_field, query. by rewrite Hs.
  - intros. by eapply text_field_throws.
Qed.

Lemma selectors_all_or_throw html (m : gmap string string) :
  (∀ k s, m !! k = Some s → is_Some (select html s))
  ∨ (∃ k s, m !! k = Some s ∧ select html s = None).
Proof.
  destruct (all_or_throw (text_field html) m) as [Hok|(k & s & e & Hk & He)].
  - left. intros k s Hk. destruct (Hok k s Hk) as [ov Hov].
    unfold text_field, query in Hov. by destruct (select html s).
  - right. exists k, s. split; [done|].
    unfold text_field, query in He. by destruct (select html s).
Qed.

(** What one run of the image callback can do to the list. *)
Lemma image_step_Ok_inv baseUrl e images images' :
  image_step baseUrl e images = Ok images' →
  images' = images
  ∨ ∃ r, images' = (images ++ [r])%list ∧ record_attrs r = image_attrs e.
Proof.
  unfold image_step.
  destruct (handle_relative _ baseUrl) as [[u|]|err]; simpl; [| |discriminate].
  - destruct (JS.truthy u); intros [= <-]; [|by left].
    right. by eexists.
  - intros [= <-]. by left.
Qed.

Lemma link_step_Ok_inv baseUrl e links links' :
  link_step baseUrl e links = Ok links' →
  links' = links
  ∨ ∃ r, links' = (links ++ [r])%list ∧ Link.text r = link_text e.
Proof.
  unfold link_step.
  destruct (handle_relative _ baseUrl) as [[u|]|err]; simpl; [| |discriminate].
  - destruct (JS.truthy u); intros [= <-]; [|by left].
    right. by eexists.
  - intros [= <-]. by left.
Qed.

Lemma each_sublist {R B : Type} (step : element → list R → result (list R))
    (shown : R → B) (of_element : element → B) els :
  (∀ e acc acc', step e acc = Ok acc' →
     acc' = acc ∨ ∃ r, acc' = (acc ++ [r])%list ∧ shown r = of_element e) →
  ∀ acc recs, each step els acc = Ok recs →
    ∃ rs, recs = (acc ++ rs)%list ∧ shown <$> rs `sublist_of` of_element <$> els.
Proof.
  intros Hstep. induction els as [|e els IH]; intros acc recs; simpl.
  - intros [= <-]. exists []. by rewrite app_nil_r.
  - destruct (step e acc) as [acc'|err] eqn:He; simpl; [|discriminate].
    intros Hrest. destruct (IH _ _ Hrest) as (rs & -> & Hsub).
    destruct (Hstep _ _ _ He) as [-> | (r & -> & Hr)].
    + exists rs. split; [done|]. by apply sublist_cons.
    + exists (r :: rs). split; [by rewrite <- app_assoc|].
      rewrite !fmap_cons, Hr. by apply sublist_skip.
Qed.

(** The relative-URL statement leaves alone what does not start with a
    slash. *)
Lemma handle_relative_absolute u baseUrl :
  (∀ s, u = Some s → JS.startsWith s "/" = false) →
  handle_relative u baseUrl = Ok u.
Proof.
  intros Habs. destruct u as [s|]; simpl; [|done].
  by rewrite (Habs s eq_refl), andb_false_r.
Qed.

Lemma handle_relative_Throw_inv u baseUrl e :
  handle_relative u baseUrl = Throw e →
  e = UrlError ∧ baseUrl ≠ ""
  ∧ ∃ s, u = Some s ∧ JS.startsWith s "/" = true ∧ resolve s baseUrl = None.
Proof.
  destruct u as [s|]; simpl; [|discriminate].
  destruct (JS.truthy s) eqn:Hs; simpl; [|discriminate].
  destruct (JS.startsWith s "/") eqn:Hslash; simpl; [|discriminate].
  destruct (JS.truthy baseUrl) eqn:Hb; simpl; [|discriminate].
  unfold new_URL_href. destruct (resolve s baseUrl) eqn:Hres; simpl; [discriminate|].
  intros [= <-]. split; [done|]. split; [by apply truthy_true|]. eauto.
Qed.

End MoreRecords.

(** ** [extractText] on an object of selectors *)

(** X1. Given an object of selectors, [extractText] returns an object
    with exactly the same keys, each holding the trimmed text of what its
    selector matched; it throws, with the selector error, exactly when
    the query library rejects one of the selectors. *)
Theorem extractText_object {P : Platform} (html : string) (m : gmap string string) :
  (∀ r, extractText html (ManySelectors m) = Ok r →
     ∃ t, r = ManyTexts t ∧ dom t = dom m
          ∧ ∀ k s, m !! k = Some s →
              ∃ els, select html s = Some els
                     ∧ t !! k = Some (JS.trim (Cheerio.text els)))
  ∧ (∀ e, extractText html (ManySelectors m) = Throw e →
       e = SelectorError ∧ ∃ k s, m !! k = Some s ∧ select html s = None)
  ∧ ((∃ k s, m !! k = Some s ∧ select html s = None) →
     extractText html (ManySelectors m) = Throw SelectorError).
Proof.
  destruct (selectors_all_or_throw html m) as [Hok|(k & s & Hk & Hs)].
  - rewrite (extractText_many html m Hok). split; [|split].
    + intros r [= <-]. eexists. split; [done|]. split.
      * apply set_eq. intros k. rewrite !elem_of_dom, lookup_omap.
        destruct (m !! k) as [s|] eqn:Hk; simpl.
        -- destruct (Hok k s Hk) as [els ->]. simpl. split; eauto.
        -- split; by intros [? ?].
      * intros k s Hk. destruct (Hok k s Hk) as [els Hels]. exists els.
        split; [done|]. by rewrite lookup_omap, Hk; simpl; rewrite Hels.
    + discriminate.
    + intros (k & s & Hk & Hs). destruct (Hok k s Hk) as [els Hels]. congruence.
  - rewrite (extractText_many_Throw html m k s Hk Hs). split; [|split].
    + discriminate.
    + intros e [= <-]. eauto 6.
    + done.
Qed.

Lemma extractText_object_witness :
  (∃ t, extractText (P:=Sample.platform) Sample.doc_page
          (ManySelectors Demo.two_selectors) = Ok (ManyTexts t)
        ∧ dom t = dom Demo.two_selectors)
  ∧ extractText (P:=Sample.platform) Sample.doc_page
      (ManySelectors Demo.broken_selectors) = Throw SelectorError.
Proof.
  split.
  - destruct (extractText_object (P:=Sample.platform) Sample.doc_page
                Demo.two_selectors) as (Hok & _ & _).
    destruct (Hok (ManyTexts {[ "title" := "T"; "missing" := "" ]}))
      as (t & [= <-] & Hdom & _); [vm_compute; reflexivity|].
    eexists. split; [vm_compute; reflexivity | done].
  - apply (extractText_object (P:=Sample.platform)).
    exists "broken", "[". split; reflexivity.
Defined.

(** X2. A mapping of bare selector strings gives the same answer through
    [extractStructuredData] as the object of selectors gives through
    [extractText]: the same keys with the same texts, or the same throw. *)
Theorem bare_mapping_is_extractText {P : Platform} (html : string)
    (m : gmap string string) :
  (∀ t, extractText html (ManySelectors m) = Ok (ManyTexts t) →
     extractStructuredData html (Field.Bare <$> m) = Ok (VString <$> t))
  ∧ (∀ e, extractText html (ManySelectors m) = Throw e →
       extractStructuredData html (Field.Bare <$> m) = Throw e).
Proof.
  destruct (selectors_all_or_throw html m) as [Hok|(k & s & Hk & Hs)].
  - rewrite (extractText_many html m Hok). split; [|discriminate].
    intros t [= <-]. rewrite extractStructuredData_Ok.
    + f_equal. apply map_eq. intros k.
      rewrite lookup_omap, !lookup_fmap, lookup_omap.
      destruct (m !! k) as [s|] eqn:Hk; simpl; [|done].
      destruct (Hok k s Hk) as [els Hels]. unfold assigned. simpl.
      unfold query. by rewrite Hels.
    + intros k f. rewrite lookup_fmap.
      destruct (m !! k) as [s|] eqn:Hk; simpl; [|discriminate].
      intros [= <-]. destruct (Hok k s Hk) as [els Hels]. simpl.
      unfold query. rewrite Hels. simpl. eauto.
  - rewrite (extractText_many_Throw html m k s Hk Hs). split; [discriminate|].
    intros e [= <-].
    eapply (extractStructuredData_Throw html _ k (Field.Bare s)).
    + by rewrite lookup_fmap, Hk.
    + simpl. unfold query. by rewrite Hs.
Qed.

Lemma bare_mapping_is_extractText_witness :
  extractStructuredData (P:=Sample.platform) Sample.doc_page
    (Field.Bare <$> Demo.two_selectors)
  = Ok (VString <$> {[ "title" := "T"; "missing" := "" ]})
  ∧ extractStructuredData (P:=Sample.platform) Sample.doc_page
      (Field.Bare <$> Demo.broken_selectors) = Throw SelectorError.
Proof.
  split.
  - apply (bare_mapping_is_extractText (P:=Sample.platform)).
    vm_compute. reflexivity.
  - apply (bare_mapping_is_extractText (P:=Sample.platform)).
    vm_compute. reflexivity.
Defined.

(** ** The records and the elements they come from *)

(** X3. The records of [extractImages] follow the matched elements in
    document order, each carrying the [alt], [width] and [height] read
    from its element, with some elements left out and none added or
    repeated; likewise each link's text is the trimmed text of its
    element.  So there are never more records than matched elements. *)
Theorem records_follow_elements {P : Platform} (html selector baseUrl : string)
    (els : list element) :
  select html selector = Some els →
  (∀ images, extractImages html selector baseUrl = Ok images →
     record_attrs <$> images `sublist_of` image_attrs <$> els
     ∧ (length images ≤ length els)%nat)
  ∧ (∀ links, extractLinks html selector baseUrl = Ok links →
       Link.text <$> links `sublist_of` link_text <$> els
       ∧ (length links ≤ length els)%nat).
Proof.
  intros Hsel. split.
  - intros images. unfold extractImages. rewrite (query_Some _ _ _ Hsel). simpl.
    intros Heach.
    destruct (each_sublist (image_step baseUrl) record_attrs image_attrs els
                (image_step_Ok_inv baseUrl) [] images Heach) as (rs & -> & Hsub).
    simpl. split; [done|].
    apply sublist_length in Hsub. by rewrite !length_fmap in Hsub.
  - intros links. unfold extractLinks. rewrite (query_Some _ _ _ Hsel). simpl.
    intros Heach.
    destruct (each_sublist (link_step baseUrl) Link.text link_text els
                (link_step_Ok_inv baseUrl) [] links Heach) as (rs & -> & Hsub).
    simpl. split; [done|].
    apply sublist_length in Hsub. by rewrite !length_fmap in Hsub.
Qed.

Lemma records_follow_elements_witness :
  record_attrs <$> [ {| Image.url := "https://h.example/lazy.png"; Image.alt := "";
                        Image.width := None; Image.height := None |} ]
    `sublist_of` image_attrs <$> [Sample.img_lazy; Sample.img_none]
  ∧ Link.text <$> [ {| Link.url := "https://h.example/q"; Link.text := "Q" |} ]
      `sublist_of` link_text <$> [Demo.a_q; Demo.a_top].
Proof.
  split.
  - eapply (records_follow_elements (P:=Sample.platform) Sample.doc_lazy "img"
              "https://h.example/"); reflexivity.
  - eapply (records_follow_elements (P:=Demo.platform) Demo.doc_abs "a"
              "https://h.example/"); reflexivity.
Defined.

(** X4. URLs that do not start with a slash are never rewritten: when no
    matched element has a root-relative URL, the base URL plays no part,
    and the call cannot fail on it even if it is not a valid URL. *)
Theorem absolute_urls_ignore_base {P : Platform} (html selector baseUrl : string)
    (els : list element) :
  select html selector = Some els →
  (Forall (λ e, ∀ u, image_source e = Some u → JS.startsWith u "/" = false) els →
   extractImages html selector baseUrl = Ok (omap unresolved_image els))
  ∧ (Forall (λ e, ∀ u, getAttr e "href" = Some u → JS.startsWith u "/" = false) els →
     extractLinks html selector baseUrl = Ok (omap unresolved_link els)).
Proof.
  intros Hsel. split; intros Habs.
  - unfold extractImages. rewrite (query_Some _ _ _ Hsel). simpl.
    rewrite (each_collect _ (λ e, Ok (unresolved_image e))).
    + by rewrite collect_total.
    + intros e acc He. rewrite Forall_forall in Habs.
      unfold image_step, unresolved_image.
      rewrite handle_relative_absolute by (apply Habs, He). simpl.
      destruct (JS.or _ _) as [u|]; [|by rewrite app_nil_r].
      destruct (JS.truthy u); [done | by rewrite app_nil_r].
  - unfold extractLinks. rewrite (query_Some _ _ _ Hsel). simpl.
    rewrite (each_collect _ (λ e, Ok (unresolved_link e))).
    + by rewrite collect_total.
    + intros e acc He. rewrite Forall_forall in Habs.
      unfold link_step, unresolved_link.
      rewrite handle_relative_absolute by (apply Habs, He). simpl.
      destruct (getAttr e "href") as [u|]; [|by rewrite app_nil_r].
      destruct (JS.truthy u); [done | by rewrite app_nil_r].
Qed.

Lemma absolute_urls_ignore_base_witness :
  extractImages (P:=Demo.platform) Demo.doc_abs "img" "not a url"
  = Ok [ {| Image.url := "https://cdn.example/x.png"; Image.alt := "";
            Image.width := Some "10"; Image.height := None |} ]
  ∧ extractLinks (P:=Demo.platform) Demo.doc_abs "a" "not a url"
    = Ok [ {| Link.url := "https://h.example/q"; Link.text := "Q" |} ].
Proof.
  destruct (absolute_urls_ignore_base (P:=Demo.platform) Demo.doc_abs "img"
              "not a url" [Demo.img_abs] eq_refl) as [Himg _].
  destruct (absolute_urls_ignore_base (P:=Demo.platform) Demo.doc_abs "a"
              "not a url" [Demo.a_q; Demo.a_top] eq_refl) as [_ Hlink].
  split.
  - rewrite Himg; [reflexivity|].
    repeat constructor. intros u [= <-]. reflexivity.
  - rewrite Hlink; [reflexivity|].
    repeat constructor; intros u; vm_compute; intros [= <-]; reflexivity.
Defined.

(** X5. [extractImages] and [extractLinks] throw in two cases only: the
    selector is rejected, or there is a base URL and some matched
    element has a URL starting with a slash that cannot be resolved
    against it.  A rejected selector always throws. *)
Theorem extractors_throw_only {P : Platform} (html selector baseUrl : string) :
  (select html selector = None →
     extractImages html selector baseUrl = Throw SelectorError
     ∧ extractLinks html selector baseUrl = Throw SelectorError)
  ∧ (∀ e, extractImages html selector baseUrl = Throw e →
       (e = SelectorError ∧ select html selector = None)
       ∨ (e = UrlError ∧ baseUrl ≠ ""
          ∧ ∃ els el u, select html selector = Some els ∧ el ∈ els
              ∧ image_source el = Some u ∧ JS.startsWith u "/" = true
              ∧ resolve u baseUrl = None))
  ∧ (∀ e, extractLinks html selector baseUrl = Throw e →
       (e = SelectorError ∧ select html selector = None)
       ∨ (e = UrlError ∧ baseUrl ≠ ""
          ∧ ∃ els el u, select html selector = Some els ∧ el ∈ els
              ∧ getAttr el "href" = Some u ∧ JS.startsWith u "/" = true
              ∧ resolve u baseUrl = None)).
Proof.
  split; [|split].
  - intros Hsel. unfold extractImages, extractLinks, query. by rewrite Hsel.
  - intros e. unfold extractImages, query.
    destruct (select html selector) as [els|] eqn:Hsel; simpl.
    + intros Heach. right.
      apply each_Throw_inv in Heach as (el & acc & Hel & Hstep).
      unfold image_step in Hstep.
      destruct (handle_relative _ baseUrl) as [[u|]|err] eqn:Hrel;
        simpl in Hstep; [by destruct (JS.truthy u) | discriminate |].
      injection Hstep as ->.
      apply handle_relative_Throw_inv in Hrel as (-> & Hb & u & Hu & Hslash & Hres).
      split; [done|]. split; [done|]. by exists els, el, u.
    + intros [= <-]. by left.
  - intros e. unfold extractLinks, query.
    destruct (select html selector) as [els|] eqn:Hsel; simpl.
    + intros Heach. right.
      apply each_Throw_inv in Heach as (el & acc & Hel & Hstep).
      unfold link_step in Hstep.
      destruct (handle_relative _ baseUrl) as [[u|]|err] eqn:Hrel;
        simpl in Hstep; [by destruct (JS.truthy u) | discriminate |].
      injection Hstep as ->.
      apply handle_relative_Throw_inv in Hrel as (-> & Hb & u & Hu & Hslash & Hres).
      split; [done|]. split; [done|]. by exists els, el, u.
    + intros [= <-]. by left.
Qed.

Lemma extractors_throw_only_witness :
  extractImages (P:=Sample.platform) Sample.doc_img "[" "https://h.example/"
  = Throw SelectorError
  ∧ extractLinks (P:=Sample.platform) Sample.doc_img "[" "https://h.example/"
    = Throw SelectorError.
Proof.
  apply (extractors_throw_only (P:=Sample.platform)). reflexivity.
Defined.

(** ** Trimming *)

Lemma append_cons (a : ascii) (s1 s2 : string) :
  String a s1 +:+ s2 = String a (s1 +:+ s2).
Proof. reflexivity. Qed.

Lemma append_empty_l (s : string) : "" +:+ s = s.
Proof. reflexivity. Qed.

Lemma append_empty_r (s : string) : s +:+ "" = s.
Proof. induction s as [|a s IH]; [done|]. by rewrite append_cons, IH. Qed.

Lemma append_assoc (s1 s2 s3 : string) : (s1 +:+ s2) +:+ s3 = s1 +:+ (s2 +:+ s3).
Proof. induction s1 as [|a s1 IH]; [done|]. by rewrite !append_cons, IH. Qed.

Lemma rev_app_app (s1 s2 s3 : string) :
  String.rev_app (String.rev_app s1 s2) s3 = String.rev_app s2 (s1 +:+ s3).
Proof.
  revert s2 s3. induction s1 as [|a s1 IH]; intros s2 s3; simpl; [done|].
  by rewrite IH.
Qed.

Lemma rev_app_append (s1 s2 : string) :
  String.rev_app s1 s2 = String.rev s1 +:+ s2.
Proof.
  unfold String.rev. revert s2. induction s1 as [|a s1 IH]; intros s2; simpl; [done|].
  by rewrite IH, (IH (String a "")), append_assoc.
Qed.

Lemma rev_involutive (s : string) : String.rev (String.rev s) = s.
Proof.
  unfold String.rev. rewrite rev_app_app. simpl. apply append_empty_r.
Qed.

Lemma rev_snoc (s : string) (c : ascii) :
  String.rev (s +:+ String c "") = String c (String.rev s).
Proof.
  rewrite <- (rev_involutive s) at 1. rewrite <- rev_app_append.
  change (String.rev_app (String.rev s) (String c ""))
    with (String.rev (String c (String.rev s))).
  apply rev_involutive.
Qed.

Lemma rev_append (s1 s2 : string) :
  String.rev (s1 +:+ s2) = String.rev s2 +:+ String.rev s1.
Proof.
  induction s1 as [|a s1 IH].
  - by rewrite append_empty_l, append_empty_r.
  - rewrite append_cons.
    change (String.rev (String a (s1 +:+ s2)))
      with (String.rev_app (s1 +:+ s2) (String a "")).
    change (String.rev (String a s1)) with (String.rev_app s1 (String a "")).
    by rewrite !rev_app_append, IH, append_assoc.
Qed.

Section Strip.
Variable w1 : ascii → bool.
Variable w2 : ascii → ascii → bool.
Variable w3 : ascii → ascii → ascii → bool.

(** Whether the string starts with a recognised code point. *)
Definition head_white (s : string) : bool :=
  match s with
  | EmptyString => false
  | String c1 s1 =>
      w1 c1
      || match s1 with
         | String c2 s2 =>
             w2 c1 c2
             || match s2 with
                | String c3 _ => w3 c1 c2 c3
                | EmptyString => false
                end
         | EmptyString => false
         end
  end.

Lemma strip_clean (s : string) : head_white s = false → JS.strip w1 w2 w3 s = s.
Proof.
  destruct s as [|c1 [|c2 [|c3 s3]]]; simpl; try done.
  - by destruct (w1 c1).
  - destruct (w1 c1); [done|]. by destruct (w2 c1 c2).
  - destruct (w1 c1); [done|]. destruct (w2 c1 c2); [done|].
    by destruct (w3 c1 c2 c3).
Qed.

Lemma strip_spec (s : string) :
  head_white (JS.strip w1 w2 w3 s) = false
  ∧ ∃ w, s = w +:+ JS.strip w1 w2 w3 s.
Proof.
  remember (String.length s) as n eqn:Hn. revert s Hn.
  induction n as [n IH] using lt_wf_ind. intros s ->.
  assert (∀ pre t, s = pre +:+ t → (String.length t < String.length s)%nat →
          JS.strip w1 w2 w3 s = JS.strip w1 w2 w3 t →
          head_white (JS.strip w1 w2 w3 s) = false
          ∧ ∃ w, s = w +:+ JS.strip w1 w2 w3 s) as Hrec.
  { intros pre t Hs Hlt Heq. rewrite Heq.
    destruct (IH _ Hlt t eq_refl) as [Hhead [w Hw]]. split; [done|].
    exists (pre +:+ w). by rewrite append_assoc, <- Hw. }
  destruct (head_white s) eqn:Hh.
  2:{ rewrite (strip_clean s Hh). split; [done|]. by exists "". }
  destruct s as [|c1 s1]; [done|].
  destruct (w1 c1) eqn:H1.
  { apply (Hrec (String c1 "") s1); [done|simpl; lia|]. simpl. by rewrite H1. }
  destruct s1 as [|c2 s2]; [simpl in Hh; by rewrite H1 in Hh|].
  destruct (w2 c1 c2) eqn:H2.
  { apply (Hrec (String c1 (String c2 "")) s2); [done|simpl; lia|].
    simpl. by rewrite H1, H2. }
  destruct s2 as [|c3 s3]; [simpl in Hh; by rewrite H1, H2 in Hh|].
  destruct (w3 c1 c2 c3) eqn:H3; [|simpl in Hh; by rewrite H1, H2, H3 in Hh].
  apply (Hrec (String c1 (String c2 (String c3 ""))) s3); [done|simpl; lia|].
  simpl. by rewrite H1, H2, H3.
Qed.

Lemma strip_idem (s : string) :
  JS.strip w1 w2 w3 (JS.strip w1 w2 w3 s) = JS.strip w1 w2 w3 s.
Proof. apply strip_clean, strip_spec. Qed.

(** What a string starts with, every extension of it starts with. *)
Lemma head_white_app (p w : string) :
  head_white p = true → head_white (p +:+ w) = true.
Proof.
  destruct p as [|c1 [|c2 [|c3 p3]]]; rewrite ?append_cons; simpl; try done.
  - rewrite orb_false_r. by intros ->.
  - rewrite append_empty_l. rewrite orb_false_r.
    destruct (w1 c1); [done|]. simpl. intros ->. by destruct w.
Qed.

End Strip.

Lemma trimStart_idem (s : string) : JS.trimStart (JS.trimStart s) = JS.trimStart s.
Proof. apply strip_idem. Qed.

Lemma trimEnd_idem (s : string) : JS.trimEnd (JS.trimEnd s) = JS.trimEnd s.
Proof. unfold JS.trimEnd. by rewrite rev_involutive, strip_idem. Qed.

(** [trimEnd] keeps a prefix of the string. *)
Lemma trimEnd_prefix (s : string) : ∃ w, s = JS.trimEnd s +:+ w.
Proof.
  unfold JS.trimEnd.
  destruct (strip_spec JS.is_white (λ c2 c1, JS.is_white2 c1 c2)
              (λ c3 c2 c1, JS.is_white3 c1 c2 c3) (String.rev s)) as [_ [w Hw]].
  exists (String.rev w).
  rewrite <- rev_append, <- Hw. by rewrite rev_involutive.
Qed.

(** Trimming the end of a string that does not start with white space
    leaves it not starting with white space. *)
Lemma trimStart_trimEnd (s : string) :
  JS.trimStart s = s → JS.trimStart (JS.trimEnd s) = JS.trimEnd s.
Proof.
  intros Hs. apply strip_clean.
  destruct (head_white JS.is_white JS.is_white2 JS.is_white3 (JS.trimEnd s))
    eqn:Hhead; [|done].
  destruct (trimEnd_prefix s) as [w Hw].
  apply (head_white_app _ _ _ _ w) in Hhead. rewrite <- Hw in Hhead.
  destruct (strip_spec JS.is_white JS.is_white2 JS.is_white3 s) as [Hclean _].
  unfold JS.trimStart in Hs. rewrite Hs in Hclean. congruence.
Qed.

(** On a name that is neither boolean nor [value] the library's [attr]
    is the plain lookup [getAttr]; the names the service reads by
    literal are such names. *)
Lemma attr_named_getAttr (e : element) (name : string) :
  is_boolean name = false → name ≠ "value" → attr_named e name = getAttr e name.
Proof.
  intros Hbool Hvalue. unfold attr_named, getAttr. rewrite Hbool.
  destruct (attribs e !! name); [done|].
  by destruct (String.eqb_spec name "value").
Qed.

Lemma literal_names_plain (e : element) :
  Forall (λ name, attr_named e name = getAttr e name)
    ["src"; "data-src"; "alt"; "width"; "height"; "href"].
Proof.
  repeat (constructor; [by apply attr_named_getAttr|]). constructor.
Qed.

(** White space beyond ASCII goes too: a no-break space on either side. *)
Example trim_strips_nbsp : JS.trim Edge.nbsp_T = "T".
Proof. vm_compute. reflexivity. Qed.

Lemma trim_idem (s : string) : JS.trim (JS.trim s) = JS.trim s.
Proof.
  unfold JS.trim.
  rewrite (trimStart_trimEnd (JS.trimStart s)) by apply trimStart_idem.
  apply trimEnd_idem.
Qed.

(** X6. Every text the extractors hand out is already trimmed: trimming
    it again changes nothing.  This holds for the string of
    [extractText], for each entry of the object it returns, for the text
    of every link, and for the value of every structured field other
    than [html] and [attr] ones, which is a trimmed string or a list of
    trimmed strings. *)
Theorem extracted_text_is_trimmed {P : Platform} (html : string) :
  (∀ s t, extractText html (OneSelector s) = Ok (OneText t) → JS.trim t = t)
  ∧ (∀ m t k v, extractText html (ManySelectors m) = Ok (ManyTexts t) →
       t !! k = Some v → JS.trim v = v)
  ∧ (∀ selector baseUrl links, extractLinks html selector baseUrl = Ok links →
       Forall (λ r, JS.trim (Link.text r) = Link.text r) links)
  ∧ (∀ m r k f v, extractStructuredData html m = Ok r →
       m !! k = Some f → keeps_raw f = false → r !! k = Some v →
       trimmed_value v).
Proof.
  split; [|split; [|split]].
  - intros s t. unfold extractText. destruct (query html s); simpl; [|discriminate].
    intros [= <-]. apply trim_idem.
  - intros m t k v Ht Hk.
    destruct (selectors_all_or_throw html m) as [Hok|(k' & s & Hk' & Hs)].
    + rewrite (extractText_many html m Hok) in Ht. injection Ht as <-.
      rewrite lookup_omap in Hk.
      destruct (m !! k) as [s|]; simpl in Hk; [|discriminate].
      destruct (select html s); simpl in Hk; [|discriminate].
      injection Hk as <-. apply trim_idem.
    + rewrite (extractText_many_Throw html m k' s Hk' Hs) in Ht. discriminate.
  - intros selector baseUrl links. unfold extractLinks.
    destruct (query html selector) as [els|]; simpl; [|discriminate].
    assert (∀ acc, Forall (λ r, JS.trim (Link.text r) = Link.text r) acc →
            each (link_step baseUrl) els acc = Ok links →
            Forall (λ r, JS.trim (Link.text r) = Link.text r) links) as Hinv.
    { induction els as [|e els IH]; intros acc Hacc; simpl.
      - by intros [= <-].
      - destruct (link_step baseUrl e acc) as [acc'|] eqn:He; simpl; [|discriminate].
        apply IH. destruct (link_step_Ok_inv _ _ _ _ He) as [-> | (r & -> & Hr)];
          [done|].
        apply Forall_app. split; [done|]. apply Forall_singleton.
        rewrite Hr. apply trim_idem. }
    apply Hinv. constructor.
  - intros m r k f v Hr Hk Hraw Hv.
    rewrite (extractStructuredData_lookup _ _ _ k Hr), Hk in Hv. simpl in Hv.
    unfold assigned in Hv. rewrite field_value_query in Hv.
    destruct (assigns f); [|discriminate].
    destruct (query_opt html (field_selector f)) as [els|]; simpl in Hv;
      [|discriminate].
    injection Hv as <-. destruct f as [s|o]; simpl; [apply trim_idem|].
    simpl in Hraw. apply orb_false_elim in Hraw as [Hhtml Hattr].
    unfold type_value. rewrite Hhtml, Hattr.
    repeat case_match; simpl; try apply trim_idem.
    apply Forall_fmap, Forall_forall. intros e _. apply trim_idem.
Qed.

Lemma extracted_text_is_trimmed_witness :
  JS.trim "T" = "T"
  ∧ Forall (λ r, JS.trim (Link.text r) = Link.text r)
      [ {| Link.url := "https://h.example/q"; Link.text := "Q" |} ]
  ∧ trimmed_value (VArray ["a"; "b"]).
Proof.
  destruct (extracted_text_is_trimmed (P:=Demo.platform) Demo.doc_abs)
    as (_ & _ & Hlinks & _).
  destruct (extracted_text_is_trimmed (P:=Sample.platform) Sample.doc_page)
    as (Hone & _ & _ & Hfield).
  split; [|split].
  - apply (Hone "h1"). reflexivity.
  - apply (Hlinks "a" "https://h.example/"). reflexivity.
  - apply (Hfield Sample.title_and_tags
             {[ "title" := VString "T"; "tags" := VArray ["a"; "b"] ]} "tags"
             (Field.Obj {| Field.selector := Some ".tag"; Field.type := Some "list";
                           Field.attr := None |}));
      vm_compute; reflexivity.
Defined.

(** ** The modes of a structured field *)

Lemma field_lookup {P : Platform} html (m : gmap string Field.spec) r key o t els :
  extractStructuredData html m = Ok r →
  m !! key = Some (Field.Obj o) →
  Field.type o = Some t → t ≠ "" →
  query_opt html (Field.selector o) = Ok els →
  r !! key = Some (type_value o t els).
Proof.
  intros Hr Hkey Ht Hne Hq.
  rewrite (extractStructuredData_lookup _ _ _ key Hr), Hkey. simpl.
  unfold assigned. rewrite field_value_query. simpl. rewrite Ht. simpl.
  apply truthy_true in Hne. by rewrite Hne, Hq.
Qed.

(** X7. An [html] or [attr] field looks at the first matched element
    only.  [html] holds its inner markup, untouched, or [null] when
    nothing matched.  [attr] with a name holds what the library's
    [attr] reads on the first element, or [undefined] when nothing
    matched: an attribute that is present gives its value when the name
    is not one of the library's boolean names, and one that is missing
    gives [undefined] when the name is not [value].  A missing attribute
    is never an error. *)
Theorem first_element_fields {P : Platform} (html : string)
    (m : gmap string Field.spec) (r : gmap string value) (key : string)
    (o : Field.object) (els : list element) :
  extractStructuredData html m = Ok r →
  m !! key = Some (Field.Obj o) →
  query_opt html (Field.selector o) = Ok els →
  (Field.type o = Some "html" →
     r !! key = Some (match els with
                      | [] => VNull
                      | e :: _ => VString (innerHTML e)
                      end))
  ∧ (∀ name, Field.type o = Some "attr" → Field.attr o = Some name → name ≠ "" →
       r !! key = Some (match els with
                        | [] => VUndefined
                        | e :: _ => from_option VString VUndefined (attr_named e name)
                        end)
       ∧ (∀ e rest v, els = e :: rest → getAttr e name = Some v →
            is_boolean name = false → r !! key = Some (VString v))
       ∧ (∀ e rest, els = e :: rest → getAttr e name = None →
            name ≠ "value" → r !! key = Some VUndefined)).
Proof.
  intros Hr Hkey Hq. split.
  - intros Ht. by rewrite (field_lookup _ _ _ _ _ _ _ Hr Hkey Ht ltac:(done) Hq).
  - intros name Ht Hname Hne.
    rewrite (field_lookup _ _ _ _ _ _ _ Hr Hkey Ht ltac:(done) Hq).
    unfold type_value. simpl. rewrite Hname.
    apply truthy_true in Hne as Htruthy.
    split; [|split].
    + destruct els as [|e els']; [done|]. simpl. rewrite Htruthy.
      by destruct (attr_named e name).
    + intros e rest v -> Hv Hbool. simpl. rewrite Htruthy.
      unfold attr_named. unfold getAttr in Hv. by rewrite Hv, Hbool.
    + intros e rest -> Hv Hvalue. simpl. rewrite Htruthy.
      unfold attr_named. unfold getAttr in Hv. rewrite Hv.
      by destruct (String.eqb_spec name "value").
Qed.

Lemma first_element_fields_witness :
  ({[ "only" := VString "a" ]} : gmap string value) !! "only"
  = Some (VString (innerHTML (Sample.span_tag "a")))
  ∧ ({[ "only" := VString "https://h.example/q" ]} : gmap string value) !! "only"
    = Some (VString "https://h.example/q")
  ∧ ({[ "only" := VUndefined ]} : gmap string value) !! "only" = Some VUndefined.
Proof.
  split; [|split].
  - assert (extractStructuredData (P:=Sample.platform) Sample.doc_page
              (one_field ".tag" "html" None) = Ok {[ "only" := VString "a" ]})
      as Hr by (vm_compute; reflexivity).
    destruct (first_element_fields (P:=Sample.platform) _ _ _ "only"
                {| Field.selector := Some ".tag"; Field.type := Some "html";
                   Field.attr := None |}
                [Sample.span_tag "a"; Sample.span_tag "b"] Hr eq_refl eq_refl)
      as [Hhtml _].
    apply Hhtml. reflexivity.
  - assert (extractStructuredData (P:=Demo.platform) Demo.doc_abs
              (one_field "a" "attr" (Some "href"))
            = Ok {[ "only" := VString "https://h.example/q" ]})
      as Hr by (vm_compute; reflexivity).
    destruct (first_element_fields (P:=Demo.platform) _ _ _ "only"
                {| Field.selector := Some "a"; Field.type := Some "attr";
                   Field.attr := Some "href" |}
                [Demo.a_q; Demo.a_top] Hr eq_refl eq_refl) as [_ Hattr].
    destruct (Hattr "href" eq_refl eq_refl ltac:(discriminate))
      as (_ & Hpresent & _).
    apply (Hpresent Demo.a_q [Demo.a_top]); reflexivity.
  - assert (extractStructuredData (P:=Demo.platform) Demo.doc_abs
              (one_field "a" "attr" (Some "name")) = Ok {[ "only" := VUndefined ]})
      as Hr by (vm_compute; reflexivity).
    destruct (first_element_fields (P:=Demo.platform) _ _ _ "only"
                {| Field.selector := Some "a"; Field.type := Some "attr";
                   Field.attr := Some "name" |}
                [Demo.a_q; Demo.a_top] Hr eq_refl eq_refl) as [_ Hattr].
    destruct (Hattr "name" eq_refl eq_refl ltac:(discriminate))
      as (_ & _ & Hmissing).
    apply (Hmissing Demo.a_q [Demo.a_top]); [reflexivity..|discriminate].
Defined.

(** X8. A [list] field holds one trimmed text per matched element, in
    document order, so as many items as elements; a [text] field holds
    a single string, all the matched text joined and then trimmed.  On
    a selector that matches exactly one element the list is the
    one-item list of the text. *)
Theorem list_and_text_fields {P : Platform} (html : string)
    (m : gmap string Field.spec) (r : gmap string value) (key : string)
    (o : Field.object) (els : list element) :
  extractStructuredData html m = Ok r →
  m !! key = Some (Field.Obj o) →
  query_opt html (Field.selector o) = Ok els →
  (Field.type o = Some "list" →
     r !! key = Some (VArray (link_text <$> els))
     ∧ ∀ e, els = [e] → r !! key = Some (VArray [JS.trim (Cheerio.text els)]))
  ∧ (Field.type o = Some "text" →
       r !! key = Some (VString (JS.trim (Cheerio.text els)))).
Proof.
  intros Hr Hkey Hq. split.
  - intros Ht. rewrite (field_lookup _ _ _ _ _ _ _ Hr Hkey Ht ltac:(done) Hq).
    split; [done|]. by intros e ->.
  - intros Ht. by rewrite (field_lookup _ _ _ _ _ _ _ Hr Hkey Ht ltac:(done) Hq).
Qed.

Lemma list_and_text_fields_witness :
  ({[ "only" := VArray ["a"; "b"] ]} : gmap string value) !! "only"
  = Some (VArray (link_text <$> [Sample.span_tag "a"; Sample.span_tag "b"]))
  ∧ ({[ "only" := VString "ab" ]} : gmap string value) !! "only"
    = Some (VString (JS.trim (Cheerio.text
                                [Sample.span_tag "a"; Sample.span_tag "b"]))).
Proof.
  split.
  - eapply (list_and_text_fields (P:=Sample.platform) Sample.doc_page
              (one_field ".tag" "list" None) _ "only" _
              [Sample.span_tag "a"; Sample.span_tag "b"]);
      vm_compute; reflexivity.
  - eapply (list_and_text_fields (P:=Sample.platform) Sample.doc_page
              (one_field ".tag" "text" None) _ "only" _
              [Sample.span_tag "a"; Sample.span_tag "b"]);
      vm_compute; reflexivity.
Defined.

(** ** Splitting and merging mappings *)

(** X9. Fields are evaluated independently of each other: splitting a
    mapping into two parts with different keys, extracting each part and
    merging the two results gives what extracting the whole mapping
    gives, and the whole throws exactly when one of the parts does. *)
Theorem extractStructuredData_union {P : Platform} (html : string)
    (m1 m2 : gmap string Field.spec) :
  m1 ##ₘ m2 →
  extractStructuredData html (m1 ∪ m2)
  = (r1 ← extractStructuredData html m1;
     r2 ← extractStructuredData html m2;
     Ok (r1 ∪ r2)).
Proof.
  intros Hdisj.
  destruct (all_or_throw (field_value html) m1) as [Hok1|(k & f & e & Hk & He)].
  - rewrite (extractStructuredData_Ok html m1 Hok1). simpl.
    destruct (all_or_throw (field_value html) m2) as [Hok2|(k & f & e & Hk & He)].
    + rewrite (extractStructuredData_Ok html m2 Hok2). simpl.
      rewrite extractStructuredData_Ok.
      * f_equal. by apply map_omap_union.
      * intros k f Hk. apply lookup_union_Some in Hk as [Hk|Hk]; eauto.
    + rewrite (extractStructuredData_Throw html m2 k f e Hk He). simpl.
      eapply extractStructuredData_Throw; [|done].
      by apply lookup_union_Some_r.
  - rewrite (extractStructuredData_Throw html m1 k f e Hk He). simpl.
    eapply extractStructuredData_Throw; [|done].
    by apply lookup_union_Some_l.
Qed.

Lemma extractStructuredData_union_witness :
  extractStructuredData (P:=Sample.platform) Sample.doc_page
    (Sample.custom_title ∪ one_field ".tag" "list" None)
  = Ok ({[ "title" := VString "T" ]} ∪ {[ "only" := VArray ["a"; "b"] ]}).
Proof.
  rewrite (extractStructuredData_union (P:=Sample.platform)).
  - vm_compute. reflexivity.
  - apply map_disjoint_singleton_l. reflexivity.
Defined.

(** X10. One rejected selector loses the whole result: the call throws
    if and only if some field that is evaluated, a bare string or an
    object with a non-empty [type], has a selector the query library
    rejects.  A field that is skipped never makes the call throw,
    whatever its selector. *)
Theorem structured_throws_iff {P : Platform} (html : string)
    (m : gmap string Field.spec) :
  (extractStructuredData html m = Throw SelectorError
   ↔ ∃ k f s, m !! k = Some f ∧ assigns f = true
              ∧ field_selector f = Some s ∧ select html s = None)
  ∧ ((∀ k f, m !! k = Some f → assigns f = false) →
     extractStructuredData html m = Ok ∅).
Proof.
  split; [split|].
  - intros Hthrow.
    apply extractStructuredData_Throw_inv in Hthrow as (_ & k & f & Hk & Hf & Hq).
    destruct (field_selector f) as [s|] eqn:Hs; simpl in Hq; [|discriminate].
    apply query_Throw_inv in Hq as [_ Hq]. by exists k, f, s.
  - intros (k & f & s & Hk & Hf & Hs & Hsel).
    eapply (extractStructuredData_Throw html m k f SelectorError); [done|].
    rewrite field_value_query, Hf, Hs. simpl. unfold query. by rewrite Hsel.
  - intros Hskip. rewrite extractStructuredData_Ok.
    + f_equal. apply map_eq. intros k. rewrite lookup_omap, lookup_empty.
      destruct (m !! k) as [f|] eqn:Hk; simpl; [|done].
      unfold assigned. by rewrite field_value_skipped by eauto.
    + intros k f Hk. rewrite field_value_skipped by eauto. eauto.
Qed.

Lemma structured_throws_iff_witness :
  extractStructuredData (P:=Sample.platform) Sample.doc_page
    (Field.Bare <$> Demo.broken_selectors) = Throw SelectorError
  ∧ extractStructuredData (P:=Sample.platform) Sample.doc_page
      {[ "broken" := Field.Obj {| Field.selector := Some "["; Field.type := None;
                                  Field.attr := None |} ]} = Ok ∅.
Proof.
  split.
  - apply (structured_throws_iff (P:=Sample.platform)).
    exists "broken", (Field.Bare "["), "[". repeat split; reflexivity.
  - apply (structured_throws_iff (P:=Sample.platform)).
    intros k f Hk. apply lookup_singleton_Some in Hk as [_ <-]. reflexivity.
Defined.

(** * Properties of the client configuration *)

Lemma client_eq (c1 c2 : client) :
  timeout c1 = timeout c2 → headers c1 = headers c2 → auth c1 = auth c2 → c1 = c2.
Proof. destruct c1, c2. simpl. by intros -> -> ->. Qed.

(** X11. A new instance always has a User-Agent header and never a zero
    timeout: a missing or zero timeout becomes 10000 and any other is
    kept; the caller's headers are all kept, so a caller's User-Agent
    replaces the default one; the credentials are stored as given. *)
Theorem new_service_defaults (o : options) :
  timeout (new_WebScraperService o) ≠ 0%Z
  ∧ (opt_timeout o = None ∨ opt_timeout o = Some 0%Z →
     timeout (new_WebScraperService o) = 10000%Z)
  ∧ (∀ t, opt_timeout o = Some t → t ≠ 0%Z → timeout (new_WebScraperService o) = t)
  ∧ is_Some (headers (new_WebScraperService o) !! "User-Agent")
  ∧ (∀ h name v, opt_headers o = Some h → h !! name = Some v →
       headers (new_WebScraperService o) !! name = Some v)
  ∧ (∀ name, name ≠ "User-Agent" →
       headers (new_WebScraperService o) !! name
       = default ∅ (opt_headers o) !! name)
  ∧ auth (new_WebScraperService o) = opt_auth o.
Proof.
  split; [|split; [|split; [|split; [|split; [|split]]]]]; simpl.
  - destruct (opt_timeout o) as [t|]; [|done]. by destruct (decide (t = 0%Z)).
  - by intros [-> | ->].
  - intros t -> Ht. by destruct (decide (t = 0%Z)).
  - destruct (default ∅ (opt_headers o) !! "User-Agent") as [v|] eqn:Hv.
    + exists v. by apply lookup_union_Some_l.
    + exists default_user_agent. rewrite lookup_union_r by done.
      apply lookup_singleton_eq.
  - intros h name v -> Hv. by apply lookup_union_Some_l.
  - intros name Hname. rewrite lookup_union.
    rewrite lookup_singleton_ne by done.
    by destruct (default ∅ (opt_headers o) !! name).
  - done.
Qed.

Lemma new_service_defaults_witness :
  timeout (new_WebScraperService
             {| opt_headers := Some {[ "User-Agent" := "Custom User Agent" ]};
                opt_auth := None; opt_timeout := Some 0%Z |}) = 10000%Z
  ∧ headers (new_WebScraperService
               {| opt_headers := Some {[ "User-Agent" := "Custom User Agent" ]};
                  opt_auth := None; opt_timeout := Some 0%Z |}) !! "User-Agent"
    = Some "Custom User Agent"
  ∧ timeout Sample.scraper = 5000%Z.
Proof.
  split; [|split].
  - destruct (new_service_defaults
                {| opt_headers := Some {[ "User-Agent" := "Custom User Agent" ]};
                   opt_auth := None; opt_timeout := Some 0%Z |})
      as (_ & Hzero & _).
    apply Hzero. by right.
  - destruct (new_service_defaults
                {| opt_headers := Some {[ "User-Agent" := "Custom User Agent" ]};
                   opt_auth := None; opt_timeout := Some 0%Z |})
      as (_ & _ & _ & _ & Hkept & _).
    eapply Hkept; reflexivity.
  - destruct (new_service_defaults
                {| opt_headers := Some {[ "Accept-Language" := "en" ]};
                   opt_auth := Some {| username := "u"; password := "p" |};
                   opt_timeout := Some 5000%Z |}) as (_ & _ & Hgiven & _).
    apply Hgiven; [reflexivity | discriminate].
Defined.

(** X12. The mutators compose: two [setHeaders] calls are one call with
    the merged headers, the later call winning on a shared name;
    [setHeaders] with no header changes nothing; of two [setCookies] or
    two [setAuth] calls only the later counts; and [setAuth] commutes
    with [setHeaders] and [setCookies]. *)
Theorem mutators_compose (c : client) :
  (∀ h1 h2, setHeaders h2 (setHeaders h1 c) = setHeaders (h2 ∪ h1) c)
  ∧ setHeaders ∅ c = c
  ∧ (∀ k1 k2, setCookies k2 (setCookies k1 c) = setCookies k2 c)
  ∧ (∀ a1 a2, setAuth a2 (setAuth a1 c) = setAuth a2 c)
  ∧ (∀ a h, setAuth a (setHeaders h c) = setHeaders h (setAuth a c))
  ∧ (∀ a k, setAuth a (setCookies k c) = setCookies k (setAuth a c)).
Proof.
  split; [|split; [|split; [|split; [|split]]]].
  - intros h1 h2. apply client_eq; simpl; try done.
    by rewrite (assoc_L (∪)).
  - apply client_eq; simpl; try done. by rewrite (left_id_L ∅ (∪)).
  - intros k1 k2. apply client_eq; simpl; try done.
    rewrite (assoc_L (∪)). by f_equal.
  - done.
  - done.
  - done.
Qed.

(** X13. No sequence of [setAuth], [setHeaders] and [setCookies] calls
    changes the timeout or removes a header: the timeout is fixed at
    construction and headers can only be added or overwritten.  The
    credentials are what the last [setAuth] call was given, so a
    [setAuth(null)] clears them; [setHeaders] and [setCookies] leave
    them alone. *)
Theorem calls_never_remove (c : client) (calls : list call) :
  timeout (apply_calls c calls) = timeout c
  ∧ dom (headers c) ⊆ dom (headers (apply_calls c calls))
  ∧ (Forall (λ k, is_setAuth k = false) calls →
     auth (apply_calls c calls) = auth c)
  ∧ (∀ before a rest,
       calls = (before ++ CallSetAuth a :: rest)%list →
       Forall (λ k, is_setAuth k = false) rest →
       auth (apply_calls c calls) = a).
Proof.
  assert (∀ calls c, Forall (λ k, is_setAuth k = false) calls →
            auth (apply_calls c calls) = auth c) as Hkeep.
  { clear. induction calls as [|k calls IH]; intros c Hall; simpl; [done|].
    apply Forall_cons in Hall as [Hk Hall]. unfold apply_calls in IH.
    rewrite IH by done. by destruct k. }
  split; [|split; [|split]].
  - revert c. induction calls as [|k calls IH]; intros c; simpl; [done|].
    unfold apply_calls in IH. rewrite IH. by destruct k.
  - revert c. induction calls as [|k calls IH]; intros c; simpl; [done|].
    unfold apply_calls in IH. etrans; [|apply IH].
    destruct k as [a|h|cookies]; simpl; [done| |];
      rewrite dom_union_L; apply union_subseteq_r.
  - apply Hkeep.
  - intros before a rest -> Hrest. unfold apply_calls.
    rewrite foldl_app. simpl.
    change (foldl apply_call ?x rest) with (apply_calls x rest).
    by rewrite Hkeep.
Qed.

Lemma calls_never_remove_witness :
  auth (apply_calls Sample.scraper
          [CallSetCookies "session=abc123"; CallSetHeaders ∅]) = auth Sample.scraper
  ∧ auth (apply_calls Sample.scraper
            ([CallSetAuth (Some (Credentials "user" "passwd"))]
             ++ CallSetAuth None :: [CallSetCookies "session=abc123"])) = None.
Proof.
  split.
  - apply calls_never_remove. repeat constructor.
  - eapply calls_never_remove; [reflexivity|]. repeat constructor.
Defined.

(** * Properties of the screens *)

(** ** The authentication form (WebScraperWithAuth.js) *)

Lemma configure_step (f : WebScraperWithAuth.form) (c : client) :
  timeout (WebScraperWithAuth.configure f c) = timeout c
  ∧ (∀ name, name ≠ "Cookie" →
       headers (WebScraperWithAuth.configure f c) !! name = headers c !! name)
  ∧ (is_Some (auth c) → is_Some (auth (WebScraperWithAuth.configure f c)))
  ∧ (is_Some (headers c !! "Cookie") →
     is_Some (headers (WebScraperWithAuth.configure f c) !! "Cookie"))
  ∧ (WebScraperWithAuth.useAuth f = false → WebScraperWithAuth.configure f c = c).
Proof.
  unfold WebScraperWithAuth.configure.
  destruct (WebScraperWithAuth.useAuth f); [|done].
  destruct (_ && _ && _); simpl.
  - repeat split; first [done | intros _; by eexists].
  - destruct (_ && _); simpl; [|done].
    split; [done|]. split; [|split; [done|split; [|done]]].
    + intros name Hname. rewrite lookup_union_r; [done|].
      by apply lookup_singleton_ne.
    + intros _. eexists. apply lookup_union_Some_l, lookup_singleton_eq.
Qed.

(** X14. However the authentication form is edited, the effect that
    configures the scraper never changes its timeout or any header other
    than Cookie, and never removes credentials or a Cookie header once
    they are stored: switching from basic to cookie authentication, or
    switching authentication off, leaves the stored credentials in
    place.  While authentication is off the scraper is not touched. *)
Theorem configure_never_clears (scraper : client)
    (forms : list WebScraperWithAuth.form) :
  timeout (WebScraperWithAuth.configure_all scraper forms) = timeout scraper
  ∧ (∀ name, name ≠ "Cookie" →
       headers (WebScraperWithAuth.configure_all scraper forms) !! name
       = headers scraper !! name)
  ∧ (is_Some (auth scraper) →
     is_Some (auth (WebScraperWithAuth.configure_all scraper forms)))
  ∧ (is_Some (headers scraper !! "Cookie") →
     is_Some (headers (WebScraperWithAuth.configure_all scraper forms) !! "Cookie"))
  ∧ (Forall (λ f, WebScraperWithAuth.useAuth f = false) forms →
     WebScraperWithAuth.configure_all scraper forms = scraper).
Proof.
  revert scraper. induction forms as [|f forms IH]; intros scraper; simpl; [done|].
  destruct (IH (WebScraperWithAuth.configure f scraper)) as (Ht & Hh & Ha & Hc & Hoff).
  destruct (configure_step f scraper) as (Ht1 & Hh1 & Ha1 & Hc1 & Hoff1).
  unfold WebScraperWithAuth.configure_all in *. simpl.
  split; [congruence|]. split; [|split; [|split]].
  - intros name Hname. by rewrite Hh, Hh1.
  - auto.
  - auto.
  - intros Hall. apply Forall_cons in Hall as [Hf Hall].
    rewrite Hoff by done. by apply Hoff1.
Qed.

Lemma configure_never_clears_witness :
  is_Some (auth (WebScraperWithAuth.configure_all
                   (WebScraperWithAuth.configure DemoHttp.basic_form
                      WebScraper.scraper)
                   [DemoHttp.cookie_form; DemoHttp.off_form]))
  ∧ WebScraperWithAuth.configure_all Sample.scraper [DemoHttp.off_form; DemoHttp.off_form]
    = Sample.scraper.
Proof.
  split.
  - apply configure_never_clears. by eexists.
  - apply configure_never_clears. repeat constructor.
Defined.

(** ** The basic scraper screen (WebScraper.js) *)

Section Screens.
Context {P : Platform} {H : Http}.

(** The setter the switch ends with. *)
Lemma extract_setter selector scrapeType html url set :
  WebScraper.extract selector scrapeType html url = Ok set →
  (scrapeType = "text" ∧ ∃ t, set = WebScraper.setTextResults (Some t))
  ∨ (scrapeType = "images" ∧ ∃ images, set = WebScraper.setImageResults images)
  ∨ (scrapeType = "links" ∧ ∃ links, set = WebScraper.setLinkResults links)
  ∨ (∃ message, set = WebScraper.setError (Some message)).
Proof.
  unfold WebScraper.extract.
  destruct (String.eqb_spec scrapeType "text") as [->|_].
  { destruct (JS.truthy selector).
    - destruct (extractText html _) as [t|]; simpl; [|discriminate].
      intros [= <-]. left. eauto.
    - intros [= <-]. do 3 right. eauto. }
  destruct (String.eqb_spec scrapeType "images") as [->|_].
  { destruct (extractImages html _ url) as [images|]; simpl; [|discriminate].
    intros [= <-]. right. left. eauto. }
  destruct (String.eqb_spec scrapeType "links") as [->|_].
  { destruct (extractLinks html _ url) as [links|]; simpl; [|discriminate].
    intros [= <-]. do 2 right. left. eauto. }
  intros [= <-]. do 3 right. eauto.
Qed.

End Screens.

(** X15. A run of [handleScrape] with a URL leaves a state that owes
    nothing to the state before it: loading is off, what an earlier run
    found is gone, at most the slot of the chosen scrape type is filled,
    and when there is an error message all three result slots are
    empty.  Without a URL the run only sets the error message and keeps
    everything else. *)
Theorem handleScrape_outcome {P : Platform} {H : Http}
    (url selector scrapeType : string) (st : WebScraper.state) :
  (url ≠ "" →
     WebScraper.loading (WebScraper.handleScrape url selector scrapeType st) = false
     ∧ (∀ st0, WebScraper.handleScrape url selector scrapeType st
               = WebScraper.handleScrape url selector scrapeType st0)
     ∧ (is_Some (WebScraper.error (WebScraper.handleScrape url selector scrapeType st)) →
        WebScraper.textResults (WebScraper.handleScrape url selector scrapeType st) = None
        ∧ WebScraper.imageResults (WebScraper.handleScrape url selector scrapeType st) = []
        ∧ WebScraper.linkResults (WebScraper.handleScrape url selector scrapeType st) = [])
     ∧ (scrapeType ≠ "text" →
        WebScraper.textResults (WebScraper.handleScrape url selector scrapeType st) = None)
     ∧ (scrapeType ≠ "images" →
        WebScraper.imageResults (WebScraper.handleScrape url selector scrapeType st) = [])
     ∧ (scrapeType ≠ "links" →
        WebScraper.linkResults (WebScraper.handleScrape url selector scrapeType st) = []))
  ∧ (url = "" →
     WebScraper.handleScrape url selector scrapeType st
     = WebScraper.setError (Some "Please enter a URL") st).
Proof.
  split; [|by intros ->].
  intros Hurl. apply truthy_true in Hurl. unfold WebScraper.handleScrape.
  rewrite Hurl. simpl.
  destruct (try_fetch _ url _) as [set|message] eqn:Htry.
  - unfold try_fetch in Htry.
    destruct (fetchHtml _ url) as [html|]; [|discriminate].
    destruct (WebScraper.extract selector scrapeType html url) as [set'|] eqn:Hset;
      [|discriminate].
    injection Htry as ->.
    destruct (extract_setter _ _ _ _ _ Hset)
      as [(-> & t & ->) | [(-> & images & ->) | [(-> & links & ->) | (m & ->)]]];
      simpl; repeat split; try done; by intros [? ?].
  - simpl. repeat split; done.
Qed.

Lemma handleScrape_outcome_witness :
  WebScraper.loading
    (WebScraper.handleScrape (P:=Demo.platform) (H:=DemoHttp.http)
       "https://h.example/abs" "" "links" DemoHttp.initial) = false
  ∧ WebScraper.textResults
      (WebScraper.handleScrape (P:=Demo.platform) (H:=DemoHttp.http)
         "https://h.example/abs" "" "links" DemoHttp.initial) = None
  ∧ WebScraper.handleScrape (P:=Demo.platform) (H:=DemoHttp.http)
      "" "h1" "text" DemoHttp.initial
    = WebScraper.setError (Some "Please enter a URL") DemoHttp.initial.
Proof.
  destruct (handleScrape_outcome (P:=Demo.platform) (H:=DemoHttp.http)
              "https://h.example/abs" "" "links" DemoHttp.initial)
    as [Hrun _].
  destruct Hrun as (Hload & _ & _ & Htext & _); [discriminate|].
  destruct (handleScrape_outcome (P:=Demo.platform) (H:=DemoHttp.http)
              "" "h1" "text" DemoHttp.initial) as [_ Hnone].
  split; [exact Hload|]. split; [apply Htext; discriminate | by apply Hnone].
Defined.

(** X16. The page is fetched before anything else is checked: when the
    fetch fails, its message is the error shown, whatever the selector
    and the scrape type; the request for a selector and the complaint
    about an unknown scrape type are only shown after a successful
    fetch. *)
Theorem fetch_comes_first {P : Platform} {H : Http}
    (url selector scrapeType : string) (st : WebScraper.state) :
  url ≠ "" →
  (∀ message, http_get WebScraper.scraper url = Failed message →
     WebScraper.error (WebScraper.handleScrape url selector scrapeType st)
     = Some ("Error: " +:+ message))
  ∧ (∀ html, http_get WebScraper.scraper url = Body html →
       scrapeType = "text" → selector = "" →
       WebScraper.error (WebScraper.handleScrape url selector scrapeType st)
       = Some "Please enter a CSS selector for text extraction")
  ∧ (∀ html, http_get WebScraper.scraper url = Body html →
       scrapeType ≠ "text" → scrapeType ≠ "images" → scrapeType ≠ "links" →
       WebScraper.error (WebScraper.handleScrape url selector scrapeType st)
       = Some "Invalid scrape type").
Proof.
  intros Hurl. apply truthy_true in Hurl. unfold WebScraper.handleScrape.
  rewrite Hurl. simpl. unfold try_fetch, fetchHtml. split; [|split].
  - by intros message ->.
  - by intros html -> -> ->.
  - intros html -> Ht Hi Hl. unfold WebScraper.extract.
    destruct (String.eqb_spec scrapeType "text"); [done|].
    destruct (String.eqb_spec scrapeType "images"); [done|].
    by destruct (String.eqb_spec scrapeType "links").
Qed.

Lemma fetch_comes_first_witness :
  WebScraper.error
    (WebScraper.handleScrape (P:=Demo.platform) (H:=DemoHttp.http)
       "https://nowhere.example/" "" "bogus" DemoHttp.initial)
  = Some ("Error: " +:+ "Network Error")
  ∧ WebScraper.error
      (WebScraper.handleScrape (P:=Demo.platform) (H:=DemoHttp.http)
         "https://h.example/page" "" "text" DemoHttp.initial)
    = Some "Please enter a CSS selector for text extraction".
Proof.
  split.
  - apply (fetch_comes_first (P:=Demo.platform) (H:=DemoHttp.http));
      [discriminate | reflexivity].
  - eapply (fetch_comes_first (P:=Demo.platform) (H:=DemoHttp.http));
      first [discriminate | reflexivity].
Defined.

(** ** The screen with authentication (WebScraperWithAuth.js) *)

Lemma structured_dom {P : Platform} html (m : gmap string Field.spec) r :
  extractStructuredData html m = Ok r →
  (∀ k f, m !! k = Some f → assigns f = true) →
  dom r = dom m.
Proof.
  intros Hr Hall. apply set_eq. intros k.
  rewrite !elem_of_dom, (extractStructuredData_lookup _ _ _ k Hr).
  apply extractStructuredData_Ok_inv in Hr as [Hok _].
  destruct (m !! k) as [f|] eqn:Hk; simpl.
  - destruct (Hok k f Hk) as [ov Hov]. unfold assigned. rewrite Hov.
    rewrite (field_value_is_Some _ _ _ Hov). split; eauto.
  - split; by intros [? ?].
Qed.

Lemma mapping_lookup_custom selector key :
  key = "images" ∨ key = "links" →
  WebScraperWithAuth.mapping selector !! key
  = Some (Field.Obj {| Field.selector := None; Field.type := Some "custom";
                       Field.attr := None |}).
Proof.
  unfold WebScraperWithAuth.mapping.
  intros [-> | ->]; rewrite !lookup_insert_ne by done.
  - apply lookup_insert_eq.
  - apply lookup_singleton_eq.
Qed.

Lemma mapping_assigns selector k f :
  WebScraperWithAuth.mapping selector !! k = Some f → assigns f = true.
Proof.
  intros Hk. unfold WebScraperWithAuth.mapping in Hk.
  repeat (apply lookup_insert_Some in Hk as [[_ <-] | [_ Hk]]; [done|]).
  by apply lookup_singleton_Some in Hk as [_ <-].
Qed.

Lemma mapping_dom selector :
  dom (WebScraperWithAuth.mapping selector)
  = {[ "title"; "headings"; "mainContent"; "images"; "links" ]}.
Proof.
  unfold WebScraperWithAuth.mapping. by rewrite !dom_insert_L, dom_singleton_L.
Qed.

Lemma custom_field_value {P : Platform} html :
  assigned (field_value html)
    (Field.Obj {| Field.selector := None; Field.type := Some "custom";
                  Field.attr := None |}) = Some (VString "").
Proof. reflexivity. Qed.

(** X17. With a selector, the structured result of the screen never
    holds the images and the links: it has the five keys of the mapping,
    and under [images] and [links] the empty string, because a [custom]
    field has no selector and its [value] is not read.  The two
    extractions are run all the same, and a failure of either fails the
    whole scrape. *)
Theorem custom_fields_are_empty {P : Platform} {H : Http} (scraper : client)
    (url selector : string) (st : WebScraperWithAuth.state) :
  url ≠ "" → selector ≠ "" →
  (∀ r, WebScraperWithAuth.results
          (WebScraperWithAuth.handleScrape scraper url selector st) = Some r →
     ∃ data, r = WebScraperWithAuth.Structured data
       ∧ dom data = {[ "title"; "headings"; "mainContent"; "images"; "links" ]}
       ∧ data !! "images" = Some (VString "")
       ∧ data !! "links" = Some (VString ""))
  ∧ (∀ html e, http_get scraper url = Body html →
       extractImages html "img" url = Throw e
       ∨ (∃ images, extractImages html "img" url = Ok images)
         ∧ extractLinks html "a" url = Throw e →
       WebScraperWithAuth.results
         (WebScraperWithAuth.handleScrape scraper url selector st) = None
       ∧ WebScraperWithAuth.error
           (WebScraperWithAuth.handleScrape scraper url selector st)
         = Some ("Error: " +:+ error_message e)).
Proof.
  intros Hurl Hsel. apply truthy_true in Hurl, Hsel.
  unfold WebScraperWithAuth.handleScrape. rewrite Hurl. simpl.
  unfold try_fetch, fetchHtml, WebScraperWithAuth.extract. rewrite Hsel.
  split.
  - intros r.
    destruct (http_get scraper url) as [html|]; simpl; [|discriminate].
    destruct (extractImages html "img" url); simpl; [|discriminate].
    destruct (extractLinks html "a" url); simpl; [|discriminate].
    destruct (extractStructuredData html _) as [data|] eqn:Hdata; simpl;
      [|discriminate].
    intros [= <-]. exists data. split; [done|]. split; [|split].
    + rewrite (structured_dom _ _ _ Hdata); [apply mapping_dom|].
      apply mapping_assigns.
    + rewrite (extractStructuredData_lookup _ _ _ "images" Hdata).
      rewrite mapping_lookup_custom by auto. apply custom_field_value.
    + rewrite (extractStructuredData_lookup _ _ _ "links" Hdata).
      rewrite mapping_lookup_custom by auto. apply custom_field_value.
  - intros html e -> [Himg | [[images Himg] Hlink]]; rewrite Himg; simpl; [done|].
    by rewrite Hlink.
Qed.

Lemma custom_fields_are_empty_witness :
  ∃ data,
    WebScraperWithAuth.results
      (WebScraperWithAuth.handleScrape (P:=Demo.platform) (H:=DemoHttp.http)
         WebScraper.scraper "https://h.example/abs" "a"
         {| WebScraperWithAuth.loading := false; WebScraperWithAuth.error := None;
            WebScraperWithAuth.results := None |})
    = Some (WebScraperWithAuth.Structured data)
    ∧ data !! "images" = Some (VString "")
    ∧ data !! "links" = Some (VString "").
Proof.
  destruct (custom_fields_are_empty (P:=Demo.platform) (H:=DemoHttp.http)
              WebScraper.scraper "https://h.example/abs" "a"
              {| WebScraperWithAuth.loading := false;
                 WebScraperWithAuth.error := None;
                 WebScraperWithAuth.results := None |})
    as [Hres _]; [discriminate..|].
  destruct (WebScraperWithAuth.results _) as [r|] eqn:Hr; [|vm_compute in Hr; discriminate].
  destruct (Hres r eq_refl) as (data & -> & _ & Himg & Hlink).
  exists data. split; [reflexivity|]. split; [exact Himg | exact Hlink].
Defined.

(** ** The test screen (WebScraperTest.js) *)

Lemma run_test_error {A : Type} prefix (attempt : tried A) record st :
  WebScraperTest.error (WebScraperTest.run_test prefix attempt record st)
  = match attempt with
    | Done _ => None
    | Caught message => Some (prefix +:+ message)
    end.
Proof. unfold WebScraperTest.run_test. by destruct attempt. Qed.

Lemma run_test_outcome {A : Type} prefix (attempt : tried A) record st :
  WebScraperTest.outcome (WebScraperTest.run_test prefix attempt record st)
  = match attempt with
    | Done a => record a (WebScraperTest.outcome st)
    | Caught _ => WebScraperTest.outcome st
    end.
Proof. unfold WebScraperTest.run_test. by destruct attempt. Qed.

Lemma try_fetch_Failed {H : Http} {A : Type} scraper url (body : string → result A)
    message :
  http_get scraper url = Failed message → try_fetch scraper url body = Caught message.
Proof. unfold try_fetch, fetchHtml. by intros ->. Qed.

Section TestFrames.
Context {P : Platform} {H : Http}.

(** Each test writes its own entry of the results and no other. *)
Lemma text_keeps scraper st :
  WebScraperTest.images
    (WebScraperTest.outcome (WebScraperTest.testTextExtraction scraper st))
  = WebScraperTest.images (WebScraperTest.outcome st)
  ∧ WebScraperTest.links
      (WebScraperTest.outcome (WebScraperTest.testTextExtraction scraper st))
    = WebScraperTest.links (WebScraperTest.outcome st).
Proof.
  unfold WebScraperTest.testTextExtraction. rewrite run_test_outcome.
  by destruct (try_fetch _ _ _).
Qed.

Lemma images_keeps scraper st :
  WebScraperTest.text
    (WebScraperTest.outcome (WebScraperTest.testImageExtraction scraper st))
  = WebScraperTest.text (WebScraperTest.outcome st)
  ∧ WebScraperTest.links
      (WebScraperTest.outcome (WebScraperTest.testImageExtraction scraper st))
    = WebScraperTest.links (WebScraperTest.outcome st).
Proof.
  unfold WebScraperTest.testImageExtraction. rewrite run_test_outcome.
  by destruct (try_fetch _ _ _).
Qed.

Lemma links_keeps scraper st :
  WebScraperTest.text
    (WebScraperTest.outcome (WebScraperTest.testLinkExtraction scraper st))
  = WebScraperTest.text (WebScraperTest.outcome st)
  ∧ WebScraperTest.images
      (WebScraperTest.outcome (WebScraperTest.testLinkExtraction scraper st))
    = WebScraperTest.images (WebScraperTest.outcome st).
Proof.
  unfold WebScraperTest.testLinkExtraction. rewrite run_test_outcome.
  by destruct (try_fetch _ _ _).
Qed.

Lemma authentication_keeps scraper st :
  WebScraperTest.text
    (WebScraperTest.outcome (WebScraperTest.testAuthentication scraper st))
  = WebScraperTest.text (WebScraperTest.outcome st)
  ∧ WebScraperTest.images
      (WebScraperTest.outcome (WebScraperTest.testAuthentication scraper st))
    = WebScraperTest.images (WebScraperTest.outcome st)
  ∧ WebScraperTest.links
      (WebScraperTest.outcome (WebScraperTest.testAuthentication scraper st))
    = WebScraperTest.links (WebScraperTest.outcome st).
Proof.
  unfold WebScraperTest.testAuthentication. rewrite run_test_outcome.
  by destruct (try_fetch _ _ _).
Qed.

End TestFrames.

(** X18. After [runAllTests] the error shown is that of the
    authentication test alone: each test begins by clearing the error,
    so a failure of the text, image or link test is wiped by the test
    that follows and the run can end without any error although those
    tests failed.  The results hold no entry for a test whose fetch
    failed, nothing is left from before the run, and loading is off. *)
Theorem runAllTests_reports_last {P : Platform} {H : Http} (scraper : client)
    (st : WebScraperTest.state) :
  WebScraperTest.loading (WebScraperTest.runAllTests scraper st) = false
  ∧ WebScraperTest.error (WebScraperTest.runAllTests scraper st)
    = match http_get (setAuth (Some (Credentials "user" "passwd")) scraper)
              WebScraperTest.url_auth with
      | Body _ => None
      | Failed message => Some ("Authentication test failed: " +:+ message)
      end
  ∧ (∀ st0, WebScraperTest.runAllTests scraper st
            = WebScraperTest.runAllTests scraper st0)
  ∧ (∀ message, http_get scraper WebScraperTest.url_text = Failed message →
       WebScraperTest.text
         (WebScraperTest.outcome (WebScraperTest.runAllTests scraper st)) = None)
  ∧ (∀ message, http_get scraper WebScraperTest.url_images = Failed message →
       WebScraperTest.images
         (WebScraperTest.outcome (WebScraperTest.runAllTests scraper st)) = None)
  ∧ (∀ message, http_get scraper WebScraperTest.url_links = Failed message →
       WebScraperTest.links
         (WebScraperTest.outcome (WebScraperTest.runAllTests scraper st)) = None).
Proof.
  unfold WebScraperTest.runAllTests.
  split; [done|]. split; [|split; [|split; [|split]]].
  - change (WebScraperTest.error (WebScraperTest.setLoading false ?x))
      with (WebScraperTest.error x).
    unfold WebScraperTest.testAuthentication.
    rewrite run_test_error. unfold try_fetch, fetchHtml.
    by destruct (http_get (setAuth _ scraper) WebScraperTest.url_auth).
  - done.
  - intros message Hfail.
    change (WebScraperTest.outcome (WebScraperTest.setLoading false ?x))
      with (WebScraperTest.outcome x).
    rewrite (proj1 (authentication_keeps _ _)), (proj1 (links_keeps _ _)),
      (proj1 (images_keeps _ _)).
    unfold WebScraperTest.testTextExtraction.
    by rewrite run_test_outcome, (try_fetch_Failed _ _ _ _ Hfail).
  - intros message Hfail.
    change (WebScraperTest.outcome (WebScraperTest.setLoading false ?x))
      with (WebScraperTest.outcome x).
    rewrite (proj1 (proj2 (authentication_keeps _ _))),
      (proj2 (links_keeps _ _)).
    unfold WebScraperTest.testImageExtraction.
    rewrite run_test_outcome, (try_fetch_Failed _ _ _ _ Hfail).
    by rewrite (proj1 (text_keeps _ _)).
  - intros message Hfail.
    change (WebScraperTest.outcome (WebScraperTest.setLoading false ?x))
      with (WebScraperTest.outcome x).
    rewrite (proj2 (proj2 (authentication_keeps _ _))).
    unfold WebScraperTest.testLinkExtraction.
    rewrite run_test_outcome, (try_fetch_Failed _ _ _ _ Hfail).
    by rewrite (proj2 (images_keeps _ _)), (proj2 (text_keeps _ _)).
Qed.

Lemma runAllTests_reports_last_witness :
  WebScraperTest.error
    (WebScraperTest.runAllTests (P:=Demo.platform) (H:=DemoHttp.http)
       WebScraper.scraper
       {| WebScraperTest.outcome := WebScraperTest.no_results;
          WebScraperTest.loading := false; WebScraperTest.error := None |}) = None
  ∧ WebScraperTest.text
      (WebScraperTest.outcome
         (WebScraperTest.runAllTests (P:=Demo.platform) (H:=DemoHttp.http)
            WebScraper.scraper
            {| WebScraperTest.outcome := WebScraperTest.no_results;
               WebScraperTest.loading := false; WebScraperTest.error := None |}))
    = None.
Proof.
  destruct (runAllTests_reports_last (P:=Demo.platform) (H:=DemoHttp.http)
              WebScraper.scraper
              {| WebScraperTest.outcome := WebScraperTest.no_results;
                 WebScraperTest.loading := false; WebScraperTest.error := None |})
    as (_ & Herr & _ & Htext & _).
  split.
  - rewrite Herr. reflexivity.
  - apply (Htext "Network Error"). reflexivity.
Defined.
